(** * tron_info: the address lookup service, embedded and verified

    The development follows the repository file by file:
    - [tron_service.py]: [validate_tron_address] and [get_address_info], both
      wrapped by the [tenacity] retry decorator;
    - [main.py]: the process-wide [cache], the [POST /address_info] handler
      [get_address_info_endpoint] and the [GET /recent_requests] handler
      [get_recent_requests];
    - [models.py]: the row type [TronAddressInfo], whose columns are what
      SQLite, the default database of [database.py], stores: 64-bit
      integers and a binary64 [Float].

    Python code that raises, mutates the global cache, talks to the ledger
    and to the database is written in a state-and-exception monad over an
    explicit [World].  Everything outside the process (the ledger API, the
    database faults, the wall clock) is an oracle [Env] indexed by the
    number of external interactions performed so far. *)

From Stdlib Require Import ZArith List Lia SpecFloat.
From stdpp Require Import base option list strings gmap sorting pretty.

Local Open Scope Z_scope.

(** ** Python values shared by the modules *)

(** The exceptions the program raises, catches or lets through. *)
Inductive Exc : Type :=
| ConnectionError (msg : string)          (* requests.exceptions.ConnectionError *)
| HTTPError (msg : string)                (* requests.exceptions.HTTPError *)
| AddressNotFound (msg : string)          (* tronpy.exceptions.AddressNotFound *)
| ValueError (msg : string)
| KeyError (msg : string)
| RetryError (last_attempt : Exc)         (* tenacity.RetryError *)
| HTTPException (status_code : Z) (detail : string)  (* fastapi.HTTPException *)
| RequestValidationError (param : string)            (* fastapi: answered with 422 *)
| OtherException (cls : string) (msg : string).      (* e.g. a SQLAlchemy error *)

Definition class_name (e : Exc) : string :=
  match e with
  | ConnectionError _ => "ConnectionError"
  | HTTPError _ => "HTTPError"
  | AddressNotFound _ => "AddressNotFound"
  | ValueError _ => "ValueError"
  | KeyError _ => "KeyError"
  | RetryError _ => "RetryError"
  | HTTPException _ _ => "HTTPException"
  | RequestValidationError _ => "RequestValidationError"
  | OtherException cls _ => cls
  end.

(** [str(e)].  A [RetryError] prints the future of its last attempt, which
    shows the class of the exception that attempt raised and not its
    message; the object address in that text is printed as [0x0]. *)
Definition str (e : Exc) : string :=
  match e with
  | ConnectionError msg | HTTPError msg | AddressNotFound msg
  | ValueError msg | OtherException _ msg => msg
  | KeyError msg => "'" +:+ msg +:+ "'"
  | RetryError last =>
      "RetryError[<Future at 0x0 state=finished raised " +:+ class_name last +:+ ">]"
  | HTTPException _ detail => detail
  | RequestValidationError param => param
  end.

(** What running a piece of Python code ends with. *)
Inductive Outcome (A : Type) : Type :=
| Return (a : A)
| Raise (e : Exc).
Arguments Return {A} a.
Arguments Raise {A} e.

(** A [decimal.Decimal]: [coefficient * 10 ^ exponent]. *)
Record Decimal : Type := { coefficient : Z; exponent : Z }.

(** The dictionary [get_address_info] returns and the cache stores. *)
Record Info : Type := { bandwidth : Z; energy : Z; balance : Decimal }.

(** ** cachetools: [TTLCache]

    A [TTLCache] keeps its values in a dictionary, a link per key in an
    ordered dictionary that [__getitem__] and [__setitem__] move to the end
    (so its first key is the least recently used one), and the links again
    in a doubly linked list in the order they were last set.  Here [data] is
    the ordered dictionary with the value of each key, and [chain] the linked
    list with the expiry time of each link.  Every item has size one. *)
Module cachetools.
Section TTLCache.
Context {V : Type}.

Record TTLCache : Type := {
  maxsize : nat;
  ttl : Z;
  data : list (string * V);
  chain : list (string * Z)
}.

Definition empty (maxsize : nat) (ttl : Z) : TTLCache :=
  {| maxsize := maxsize; ttl := ttl; data := []; chain := [] |}.

Fixpoint assoc {B : Type} (key : string) (l : list (string * B)) : option B :=
  match l with
  | [] => None
  | (k, b) :: l' => if decide (k = key) then Some b else assoc key l'
  end.

Fixpoint remove {B : Type} (key : string) (l : list (string * B)) : list (string * B) :=
  match l with
  | [] => []
  | (k, b) :: l' => if decide (k = key) then remove key l' else (k, b) :: remove key l'
  end.

Definition with_data (c : TTLCache) (d : list (string * V)) (ch : list (string * Z)) : TTLCache :=
  {| maxsize := maxsize c; ttl := ttl c; data := d; chain := ch |}.

(** [currsize]: the sum of the sizes, each one. *)
Definition currsize (c : TTLCache) : nat := length (data c).

(** [key in cache]: no reordering, no removal. *)
Definition contains (c : TTLCache) (now : Z) (key : string) : bool :=
  match assoc key (chain c) with
  | None => false
  | Some expires => bool_decide (now < expires)
  end.

(** [OrderedDict.move_to_end(key)]. *)
Definition move_to_end (key : string) (d : list (string * V)) : list (string * V) :=
  match assoc key d with
  | None => d
  | Some v => remove key d ++ [(key, v)]
  end.

(** [cache[key]]: the link is moved to the end of the ordered dictionary
    whenever there is one; an expired or absent key raises [KeyError]. *)
Definition getitem (c : TTLCache) (now : Z) (key : string) : Outcome V * TTLCache :=
  match assoc key (chain c) with
  | None =>
      match assoc key (data c) with
      | Some v => (Return v, c)
      | None => (Raise (KeyError key), c)
      end
  | Some expires =>
      let c' := with_data c (move_to_end key (data c)) (chain c) in
      if bool_decide (now < expires) then
        match assoc key (data c) with
        | Some v => (Return v, c')
        | None => (Raise (KeyError key), c')
        end
      else (Raise (KeyError key), c')
  end.

(** The loop of [expire(time)]: from the head of the linked list, drop the
    links that are not in the future any more, stop at the first that is. *)
Fixpoint expire_loop (now : Z) (ch : list (string * Z)) (d : list (string * V))
  : list (string * V) * list (string * Z) :=
  match ch with
  | [] => (d, [])
  | (k, expires) :: ch' =>
      if bool_decide (now < expires) then (d, ch)
      else expire_loop now ch' (remove k d)
  end.

Definition expire (c : TTLCache) (now : Z) : TTLCache :=
  let '(d, ch) := expire_loop now (chain c) (data c) in with_data c d ch.

(** [popitem()]: expire, then [pop] the first key of the ordered
    dictionary; [KeyError] on an empty cache.  [pop] asks [key in self]
    before it deletes, and raises [KeyError] for a key that is stored but
    not live. *)
Definition popitem (c : TTLCache) (now : Z) : Outcome unit * TTLCache :=
  let c1 := expire c now in
  match data c1 with
  | [] => (Raise (KeyError "TTLCache is empty"), c1)
  | (key, _) :: _ =>
      if contains c1 now key then
        (Return tt, with_data c1 (remove key (data c1)) (remove key (chain c1)))
      else (Raise (KeyError key), c1)
  end.

(** [while self.currsize + size > maxsize: self.popitem()].  Every round
    removes an item or raises, so [currsize] rounds are enough; [fuel]
    counts them down. *)
Fixpoint make_room (fuel : nat) (c : TTLCache) (now : Z) : Outcome unit * TTLCache :=
  if (maxsize c <? currsize c + 1)%nat then
    match fuel with
    | O => popitem c now
    | S fuel' =>
        match popitem c now with
        | (Return _, c') => make_room fuel' c' now
        | (Raise e, c') => (Raise e, c')
        end
    end
  else (Return tt, c).

(** [cache[key] = value]: expire, make room for a new key, store the
    value, and put the link of the key, expiring at [now + ttl], at the
    end of both orders. *)
Definition setitem (c : TTLCache) (now : Z) (key : string) (value : V)
  : Outcome unit * TTLCache :=
  let c1 := expire c now in
  if (maxsize c1 <? 1)%nat then (Raise (ValueError "value too large"), c1)
  else
    let room :=
      match assoc key (data c1) with
      | None => make_room (currsize c1) c1 now
      | Some _ => (Return tt, c1)
      end in
    match room with
    | (Raise e, c2) => (Raise e, c2)
    | (Return _, c2) =>
        (Return tt,
         with_data c2
           (remove key (data c2) ++ [(key, value)])
           (remove key (chain c2) ++ [(key, now + ttl c2)]))
    end.

End TTLCache.
Arguments TTLCache V : clear implicits.
End cachetools.

(** ** models.py *)
Module models.

(** A Python [float]: a binary64 number. *)
Definition float : Type := spec_float.

(** The nearest binary64 number to [m * 10 ^ e], ties to even. *)
Definition nearest (m : positive) (e : Z) : float :=
  if 0 <=? e then binary_normalize 53 1024 (Z.pos m * 10 ^ e) 0 false
  else SFdiv 53 1024 (S754_finite false m 0)
         (S754_finite false (Z.to_pos (10 ^ (- e))) 0).

(** [float(value)], what a [Column(Float)] binds for a [Decimal]. *)
Definition to_float (value : Decimal) : float :=
  match coefficient value with
  | 0 => S754_zero false
  | Z.pos m => nearest m (exponent value)
  | Z.neg m => SFopp (nearest m (exponent value))
  end.

(** A row of the table [tron_address_info].  [id] and [timestamp] are
    filled in by the database when the row is inserted; [balance] is a
    [Column(Float)]. *)
Record TronAddressInfo : Type := {
  id : Z;
  address : string;
  bandwidth : Z;
  energy : Z;
  balance : float;
  timestamp : Z
}.

End models.

(** ** The world outside and inside the process *)

Inductive Level : Type := INFO | WARNING | ERROR.

(** What the process does that can be observed from outside, in the order
    it does it. *)
Inductive Event : Type :=
| Call_get_account (address : string)
| Call_get_account_resource (address : string)
| Call_get_account_balance (address : string)
| Sleep (seconds : Z)
| Log (level : Level) (msg : string)
| DbCommit
| DbRefresh
| DbExecute.

(** The environment: the answer of the ledger to the [n]-th external
    interaction, how long that interaction takes, whether the database
    fails on it, and the wall clock [datetime.utcnow()] at it. *)
Record Env : Type := {
  get_account : nat -> string -> Outcome unit;
  get_account_resource : nat -> string -> Outcome (gmap string Z);
  get_account_balance : nat -> string -> Outcome Decimal;
  latency : nat -> nat;
  db_fault : nat -> option Exc;
  utcnow : nat -> Z
}.

(** The state of the process and of its database.  [clock] is
    [time.monotonic()] in seconds, [tick] counts the external interactions,
    [trace] has the most recent event first. *)
Record World : Type := {
  clock : Z;
  tick : nat;
  cache_state : cachetools.TTLCache Info;
  store : list models.TronAddressInfo;
  trace : list Event
}.

Definition M (A : Type) : Type := World -> Outcome A * World.

Definition ret {A : Type} (a : A) : M A := fun w => (Return a, w).

Definition raise {A : Type} (e : Exc) : M A := fun w => (Raise e, w).

Definition bind {A B : Type} (m : M A) (k : A -> M B) : M B :=
  fun w =>
    match m w with
    | (Return a, w') => k a w'
    | (Raise e, w') => (Raise e, w')
    end.

(** [try: m  except Exception as e: handler e]. *)
Definition try_except {A : Type} (m : M A) (handler : Exc -> M A) : M A :=
  fun w =>
    match m w with
    | (Return a, w') => (Return a, w')
    | (Raise e, w') => handler e w'
    end.

Declare Scope py_scope.
Delimit Scope py_scope with py.
Notation "x <- m ;; k" := (bind m (fun x => k))
  (at level 100, m at next level, right associativity) : py_scope.
Notation "m ;; k" := (bind m (fun _ => k))
  (at level 100, right associativity) : py_scope.
Local Open Scope py_scope.

Definition emit (ev : Event) : M unit :=
  fun w =>
    (Return tt,
     {| clock := clock w; tick := tick w; cache_state := cache_state w;
        store := store w; trace := ev :: trace w |}).

Definition log (level : Level) (msg : string) : M unit := emit (Log level msg).

(** An awaited call that leaves the process: it is recorded, takes the
    time the environment says, and ends as the environment says. *)
Definition external {A : Type} (env : Env) (ev : Event) (answer : nat -> Outcome A) : M A :=
  fun w =>
    (answer (tick w),
     {| clock := clock w + Z.of_nat (latency env (tick w)); tick := S (tick w);
        cache_state := cache_state w; store := store w; trace := ev :: trace w |}).

(** [await asyncio.sleep(seconds)]. *)
Definition sleep (seconds : Z) : M unit :=
  fun w =>
    (Return tt,
     {| clock := clock w + seconds; tick := tick w; cache_state := cache_state w;
        store := store w; trace := Sleep seconds :: trace w |}).

(** ** tenacity: the retry decorator *)
Module tenacity.

(** [stop_after_attempt(max_attempt_number)]. *)
Definition stop_after_attempt (max_attempt_number : nat) (attempt_number : nat) : bool :=
  (max_attempt_number <=? attempt_number)%nat.

(** [wait_exponential(multiplier, min, max)], with [exp_base = 2]:
    [max(max(0, min), min(multiplier * 2 ** (attempt_number - 1), max))]. *)
Definition wait_exponential (multiplier min max : Z) (attempt_number : nat) : Z :=
  let exp := 2 ^ (Z.of_nat attempt_number - 1) in
  let result := multiplier * exp in
  Z.max (Z.max 0 min) (Z.min result max).

(** [retry_if_exception_type((ConnectionError, HTTPError))]. *)
Definition retry_if_exception_type (e : Exc) : bool :=
  match e with
  | ConnectionError _ | HTTPError _ => true
  | _ => false
  end.

(** The loop of the decorator [@retry(stop=stop_after_attempt(n), wait=...,
    retry=..., before_sleep=...)] around [fn], from attempt
    [attempt_number] on.  After an attempt that raised, in this order: an
    exception the [retry] predicate refuses is re-raised as it is; when
    [stop] says so the loop ends with [RetryError] around the last attempt
    ([reraise] is left at its default, false); otherwise [before_sleep]
    runs, the loop sleeps [wait attempt_number] and runs the next attempt.
    [fuel] is the number of attempts [stop_after_attempt] still allows. *)
Fixpoint attempts {A : Type} (max_attempt_number : nat) (wait : nat -> Z)
    (retry : Exc -> bool) (before_sleep : nat -> M unit) (fn : M A)
    (fuel : nat) (attempt_number : nat) : M A :=
  fun w =>
    match fn w with
    | (Return a, w1) => (Return a, w1)
    | (Raise e, w1) =>
        if negb (retry e) then (Raise e, w1)
        else if stop_after_attempt max_attempt_number attempt_number
        then (Raise (RetryError e), w1)
        else
          match fuel with
          | O => (Raise (RetryError e), w1)
          | S fuel' =>
              (before_sleep attempt_number ;;
               sleep (wait attempt_number) ;;
               attempts max_attempt_number wait retry before_sleep fn
                 fuel' (S attempt_number)) w1
          end
    end.

Definition retry {A : Type} (max_attempt_number : nat) (wait : nat -> Z)
    (retry_if : Exc -> bool) (before_sleep : nat -> M unit) (fn : M A) : M A :=
  attempts max_attempt_number wait retry_if before_sleep fn max_attempt_number 1%nat.

End tenacity.

(** ** tron_service.py *)
Module tron_service.
Section WithEnv.
Variable env : Env.

(** The body of [validate_tron_address]: one account lookup;
    [AddressNotFound] alone is caught. *)
Definition validate_tron_address_body (address : string) : M bool :=
  try_except
    (external env (Call_get_account address) (fun n => get_account env n address) ;;
     ret true)
    (fun e =>
       match e with
       | AddressNotFound _ =>
           log WARNING ("Invalid Tron address attempted: " +:+ address) ;;
           ret false
       | _ => raise e
       end).

Definition validate_tron_address (address : string) : M bool :=
  tenacity.retry 3
    (tenacity.wait_exponential 1 1 10)
    tenacity.retry_if_exception_type
    (fun attempt_number =>
       log INFO ("Retrying validate_tron_address: attempt " +:+ pretty attempt_number))
    (validate_tron_address_body address).

(** The body of [get_address_info]. *)
Definition get_address_info_body (address : string) : M Info :=
  valid <- validate_tron_address address ;;
  if negb valid then raise (ValueError "Invalid Tron address")
  else
    try_except
      (resource <- external env (Call_get_account_resource address)
                     (fun n => get_account_resource env n address) ;;
       balance <- external env (Call_get_account_balance address)
                    (fun n => get_account_balance env n address) ;;
       let bandwidth := default 0 (resource !! "NetLimit") in
       let energy := default 0 (resource !! "EnergyLimit") in
       log INFO ("Successfully retrieved info for address: " +:+ address) ;;
       ret {| bandwidth := bandwidth; energy := energy; balance := balance |})
      (fun e =>
         log ERROR ("Failed to retrieve info for address " +:+ address +:+ ": " +:+ str e) ;;
         raise e).

Definition get_address_info (address : string) : M Info :=
  tenacity.retry 3
    (tenacity.wait_exponential 1 1 10)
    tenacity.retry_if_exception_type
    (fun attempt_number =>
       log INFO ("Retrying get_address_info: attempt " +:+ pretty attempt_number))
    (get_address_info_body address).

End WithEnv.
End tron_service.

(** ** The database session *)
Module database.
Section WithEnv.
Variable env : Env.

Definition next_id (rows : list models.TronAddressInfo) : Z :=
  1 + foldr Z.max 0 (models.id <$> rows).

(** An integer the SQLite driver can bind: a signed 64-bit number.  For
    any other it raises [OverflowError]. *)
Definition fits (n : Z) : bool := (- 2 ^ 63 <=? n) && (n <? 2 ^ 63).

Definition overflow : Exc :=
  OtherException "OverflowError" "Python int too large to convert to SQLite INTEGER".

(** The object [TronAddressInfo(address=..., ...)] that [db.add] puts in
    the session and [db.commit] inserts, the balance bound as a float. *)
Definition insert (address : string) (info : Info) (now : Z)
    (rows : list models.TronAddressInfo) : list models.TronAddressInfo :=
  rows ++ [ {| models.id := next_id rows; models.address := address;
               models.bandwidth := bandwidth info; models.energy := energy info;
               models.balance := models.to_float (balance info);
               models.timestamp := now |} ].

(** A round trip to the database: recorded, timed, and failing when the
    environment says so, in which case the [statement] is not executed. *)
Definition round_trip {A : Type} (ev : Event)
    (statement : nat -> list models.TronAddressInfo
                 -> Outcome A * list models.TronAddressInfo)
  : M A :=
  fun w =>
    let w' rows :=
      {| clock := clock w + Z.of_nat (latency env (tick w)); tick := S (tick w);
         cache_state := cache_state w; store := rows; trace := ev :: trace w |} in
    match db_fault env (tick w) with
    | Some e => (Raise e, w' (store w))
    | None => let '(r, rows) := statement (tick w) (store w) in (r, w' rows)
    end.

(** [db.add(db_entry); await db.commit()]: the [INSERT] binds [bandwidth]
    and [energy] as integers. *)
Definition commit (address : string) (info : Info) : M unit :=
  round_trip DbCommit
    (fun n rows =>
       if fits (bandwidth info) && fits (energy info)
       then (Return tt, insert address info (utcnow env n) rows)
       else (Raise overflow, rows)).

(** [await db.refresh(db_entry)]. *)
Definition refresh : M unit :=
  round_trip DbRefresh (fun _ rows => (Return tt, rows)).

(** [select(func.count()).select_from(select(TronAddressInfo).subquery())]. *)
Definition count : M Z :=
  round_trip DbExecute (fun _ rows => (Return (Z.of_nat (length rows)), rows)).

(** Sorted by timestamp descending. *)
Definition newer_first (r1 r2 : models.TronAddressInfo) : Prop :=
  models.timestamp r2 <= models.timestamp r1.

Global Instance newer_first_dec r1 r2 : Decision (newer_first r1 r2).
Proof. unfold newer_first. apply _. Defined.

(** [ORDER BY timestamp DESC] as SQLite answers it: the newer row first,
    and rows of one timestamp in the order of their rowid. *)
Definition listed_before (r1 r2 : models.TronAddressInfo) : Prop :=
  models.timestamp r2 < models.timestamp r1
  \/ (models.timestamp r2 = models.timestamp r1 /\ models.id r1 <= models.id r2).

Global Instance listed_before_dec r1 r2 : Decision (listed_before r1 r2).
Proof. unfold listed_before. apply _. Defined.

Definition order_by_timestamp_desc (rows : list models.TronAddressInfo)
  : list models.TronAddressInfo :=
  merge_sort listed_before rows.

(** [OFFSET n] skips nothing for [n <= 0]; [LIMIT n] does not limit for
    [n < 0] (SQLite, the default database). *)
Definition offset {A : Type} (n : Z) (l : list A) : list A := drop (Z.to_nat n) l.
Definition limit {A : Type} (n : Z) (l : list A) : list A :=
  if n <? 0 then l else take (Z.to_nat n) l.

(** [select(TronAddressInfo).order_by(timestamp.desc()).offset(o).limit(l)],
    the offset and the limit bound as integers. *)
Definition select_recent (o l : Z) : M (list models.TronAddressInfo) :=
  round_trip DbExecute
    (fun _ rows =>
       if fits o && fits l
       then (Return (limit l (offset o (order_by_timestamp_desc rows))), rows)
       else (Raise overflow, rows)).

End WithEnv.
End database.

(** ** main.py *)
Module main.

(** [cache = TTLCache(maxsize=100, ttl=300)], as created at import. *)
Definition cache : cachetools.TTLCache Info := cachetools.empty 100 300.

Record AddressRequest : Type := { address : string }.

(** The dictionary [get_address_info_endpoint] returns. *)
Record AddressInfo : Type := {
  info_address : string;
  info_bandwidth : Z;
  info_energy : Z;
  info_balance : Decimal
}.

(** The dictionary [get_recent_requests] returns; an item of [data] has the
    columns of its row, the timestamp printed by [isoformat]. *)
Record RecentRequests : Type := {
  total : Z;
  page : Z;
  page_size : Z;
  data : list models.TronAddressInfo
}.

(** [isinstance(e, (ConnectionError, HTTPError))], the first [except]. *)
Definition is_network_error (e : Exc) : bool :=
  match e with
  | ConnectionError _ | HTTPError _ => true
  | _ => false
  end.

Definition set_cache (w : World) (c : cachetools.TTLCache Info) : World :=
  {| clock := clock w; tick := tick w; cache_state := c;
     store := store w; trace := trace w |}.

(** [address in cache], [cache[address]] and [cache[address] = info], each
    reading [time.monotonic()]. *)
Definition cache_contains (key : string) : M bool :=
  fun w => (Return (cachetools.contains (cache_state w) (clock w) key), w).

Definition cache_getitem (key : string) : M Info :=
  fun w =>
    let '(r, c) := cachetools.getitem (cache_state w) (clock w) key in
    (r, set_cache w c).

Definition cache_setitem (key : string) (value : Info) : M unit :=
  fun w =>
    let '(r, c) := cachetools.setitem (cache_state w) (clock w) key value in
    (r, set_cache w c).

Section WithEnv.
Variable env : Env.

(** The cache-or-fetch step inside the [try]. *)
Definition lookup_info (address : string) : M Info :=
  hit <- cache_contains address ;;
  if hit then
    log INFO ("Cache hit for address: " +:+ address) ;;
    cache_getitem address
  else
    info <- tron_service.get_address_info env address ;;
    cache_setitem address info ;;
    log INFO ("Cache updated for address: " +:+ address) ;;
    ret info.

(** The two [except] clauses of the handler, in their order. *)
Definition except (address : string) (e : Exc) : M AddressInfo :=
  if is_network_error e then
    log ERROR ("Network error for address " +:+ address +:+ ": " +:+ str e) ;;
    raise (HTTPException 500 ("Network error: " +:+ str e))
  else
    log ERROR ("Error processing address " +:+ address +:+ ": " +:+ str e) ;;
    raise (HTTPException 500 ("Internal server error: " +:+ str e)).

(** [POST /address_info]. *)
Definition get_address_info_endpoint (request : AddressRequest) : M AddressInfo :=
  let address := address request in
  valid <- tron_service.validate_tron_address env address ;;
  if negb valid then raise (HTTPException 400 "Invalid Tron address")
  else
    try_except
      (info <- lookup_info address ;;
       database.commit env address info ;;
       database.refresh env ;;
       ret {| info_address := address; info_bandwidth := bandwidth info;
              info_energy := energy info; info_balance := balance info |})
      (except address).

(** The body of [get_recent_requests], the parameters already validated. *)
Definition get_recent_requests_body (page page_size : Z) : M RecentRequests :=
  try_except
    (total <- database.count env ;;
     results <- database.select_recent env ((page - 1) * page_size) page_size ;;
     log INFO ("Retrieved recent requests: page=" +:+ pretty page
               +:+ ", page_size=" +:+ pretty page_size) ;;
     ret {| total := total; page := page; page_size := page_size; data := results |})
    (fun e =>
       log ERROR ("Error retrieving recent requests: " +:+ str e) ;;
       raise (HTTPException 500 ("Internal server error: " +:+ str e))).

(** [Query(default, ge=..., le=...)]: FastAPI takes the default for an
    omitted parameter and checks the bounds of a supplied one. *)
Record Query : Type := { default_value : Z; ge : option Z; le : option Z }.

Definition within (q : Query) (v : Z) : bool :=
  match ge q with Some lo => lo <=? v | None => true end
  && match le q with Some hi => v <=? hi | None => true end.

Definition resolve (name : string) (q : Query) (supplied : option Z) : Outcome Z :=
  match supplied with
  | None => Return (default_value q)
  | Some v => if within q v then Return v else Raise (RequestValidationError name)
  end.

Definition page_query : Query := {| default_value := 1; ge := Some 1; le := None |}.
Definition page_size_query : Query := {| default_value := 10; ge := Some 1; le := Some 100 |}.

(** [GET /recent_requests]: the declared parameters are resolved first and
    the body runs only with two accepted values. *)
Definition get_recent_requests (page page_size : option Z) : M RecentRequests :=
  match resolve "page" page_query page, resolve "page_size" page_size_query page_size with
  | Return p, Return ps => get_recent_requests_body p ps
  | Raise e, _ => raise e
  | _, Raise e => raise e
  end.

End WithEnv.

(** What FastAPI answers: the status and the [detail] of the JSON body, if
    the body has one.  An exception the handler lets through that is not an
    [HTTPException] is answered [500 Internal Server Error] in plain text. *)
Definition respond {A : Type} (r : Outcome A) : Z * option string :=
  match r with
  | Return _ => (200, None)
  | Raise (HTTPException status_code detail) => (status_code, Some detail)
  | Raise (RequestValidationError _) => (422, None)
  | Raise _ => (500, None)
  end.

End main.

(** ** Observations on a world *)

Fixpoint count_events (p : Event -> bool) (l : list Event) : nat :=
  match l with
  | [] => O
  | ev :: l' => ((if p ev then 1 else 0) + count_events p l')%nat
  end.

Definition is_get_account (ev : Event) : bool :=
  match ev with Call_get_account _ => true | _ => false end.
Definition is_get_account_resource (ev : Event) : bool :=
  match ev with Call_get_account_resource _ => true | _ => false end.
Definition is_get_account_balance (ev : Event) : bool :=
  match ev with Call_get_account_balance _ => true | _ => false end.
Definition is_db (ev : Event) : bool :=
  match ev with DbCommit | DbRefresh | DbExecute => true | _ => false end.

(** How often the process has called each remote operation so far. *)
Definition account_calls (w : World) : nat := count_events is_get_account (trace w).
Definition resource_calls (w : World) : nat := count_events is_get_account_resource (trace w).
Definition balance_calls (w : World) : nat := count_events is_get_account_balance (trace w).
Definition db_calls (w : World) : nat := count_events is_db (trace w).

(** The delays slept so far, the most recent first. *)
Fixpoint sleeps (l : list Event) : list Z :=
  match l with
  | [] => []
  | Sleep d :: l' => d :: sleeps l'
  | _ :: l' => sleeps l'
  end.

(** ** The decorator as the source configures it *)

(** An outcome that ends the loop at once: a result, or an exception the
    [retry] predicate refuses. *)
Definition final {A : Type} (o : Outcome A) : bool :=
  match o with
  | Return _ => true
  | Raise e => negb (tenacity.retry_if_exception_type e)
  end.

(** The outcome of the loop when the third attempt ended with [o]. *)
Definition exhausted {A : Type} (o : Outcome A) : Outcome A :=
  match o with
  | Return a => Return a
  | Raise e => if tenacity.retry_if_exception_type e then Raise (RetryError e) else Raise e
  end.

(** The world after [before_sleep] has logged and the loop has slept, after
    attempt [attempt_number] of the function [name]. *)
Definition pause (name : string) (attempt_number : nat) (w : World) : World :=
  {| clock := clock w + tenacity.wait_exponential 1 1 10 attempt_number;
     tick := tick w; cache_state := cache_state w; store := store w;
     trace := Sleep (tenacity.wait_exponential 1 1 10 attempt_number)
              :: Log INFO ("Retrying " +:+ name +:+ ": attempt " +:+ pretty attempt_number)
              :: trace w |}.

(** The decorator both functions of [tron_service.py] carry. *)
Definition decorated {A : Type} (name : string) (fn : M A) : M A :=
  tenacity.retry 3
    (tenacity.wait_exponential 1 1 10)
    tenacity.retry_if_exception_type
    (fun attempt_number =>
       log INFO ("Retrying " +:+ name +:+ ": attempt " +:+ pretty attempt_number))
    fn.

(** The world after an external call has been issued, and after a line
    has been logged. *)
Definition called (env : Env) (ev : Event) (w : World) : World :=
  {| clock := clock w + Z.of_nat (latency env (tick w)); tick := S (tick w);
     cache_state := cache_state w; store := store w; trace := ev :: trace w |}.

Definition logged (level : Level) (msg : string) (w : World) : World :=
  {| clock := clock w; tick := tick w; cache_state := cache_state w;
     store := store w; trace := Log level msg :: trace w |}.

(** ** Concrete environments

    The stubs of the test-suite and of the scenarios the properties are
    tried on: a ledger that answers every call, one that does not know the
    address, one whose account lookup fails twice with a network error,
    ones that are unreachable, and a database that loses its connection. *)
Module scenario.

Definition address : string := "TFjnjGvy8GLP63CDkX2eWQBYHRUzvN619g".

Definition request : main.AddressRequest := {| main.address := address |}.

Definition balance : Decimal := {| coefficient := 88946; exponent := -6 |}.

Definition start : World :=
  {| clock := 0; tick := 0; cache_state := main.cache; store := []; trace := [] |}.

Definition network_error : Exc := ConnectionError "Network error".

(** The rows of the pagination test, and a world whose table holds
    sixteen of them. *)
Definition row (i : nat) : models.TronAddressInfo :=
  {| models.id := Z.of_nat (S i); models.address := "test_" +:+ pretty i;
     models.bandwidth := 1000 + Z.of_nat i; models.energy := 5000 + Z.of_nat i;
     models.balance := models.to_float {| coefficient := 100 + Z.of_nat i; exponent := 0 |};
     models.timestamp := 1700000000 + Z.of_nat i |}.

(** The same world [seconds] later. *)
Definition later (seconds : Z) (w : World) : World :=
  {| clock := clock w + seconds; tick := tick w; cache_state := cache_state w;
     store := store w; trace := trace w |}.

Definition sixteen : World :=
  {| clock := 0; tick := 0; cache_state := main.cache;
     store := row <$> seq 0 16; trace := [] |}.

Definition ledger (account : nat -> Outcome unit)
    (resource : nat -> Outcome (gmap string Z)) (fault : nat -> option Exc) : Env :=
  {| get_account := fun n _ => account n;
     get_account_resource := fun n _ => resource n;
     get_account_balance := fun _ _ => Return balance;
     latency := fun _ => 1%nat;
     db_fault := fault;
     utcnow := fun n => 1700000000 + Z.of_nat n |}.

Definition healthy : Env :=
  ledger (fun _ => Return tt) (fun _ => Return ∅) (fun _ => None).

Definition staked : Env :=
  ledger (fun _ => Return tt)
    (fun _ => Return (<["NetLimit" := 600]> (<["EnergyLimit" := 1500]> ∅)))
    (fun _ => None).

Definition unknown_address : Env :=
  ledger (fun _ => Raise (AddressNotFound "account not found on-chain"))
    (fun _ => Return ∅) (fun _ => None).

Definition flaky : Env :=
  ledger (fun n => if (n <? 2)%nat then Raise network_error else Return tt)
    (fun _ => Return ∅) (fun _ => None).

Definition unreachable : Env :=
  ledger (fun _ => Raise network_error) (fun _ => Return ∅) (fun _ => None).

Definition fetch_unreachable : Env :=
  ledger (fun _ => Return tt) (fun _ => Raise network_error) (fun _ => None).

Definition refresh_fails : Env :=
  ledger (fun _ => Return tt) (fun _ => Return ∅)
    (fun n => if (n =? 5)%nat then Some (OtherException "OperationalError" "connection lost")
              else None).

(** The database refuses the commit of the first lookup. *)
Definition commit_fails : Env :=
  ledger (fun _ => Return tt) (fun _ => Return ∅)
    (fun n => if (n =? 4)%nat then Some (OtherException "OperationalError" "database is locked")
              else None).

(** A world whose table holds the sixteen rows, an hour and a hundred
    interactions later. *)
Definition returning : World :=
  {| clock := 3600; tick := 100; cache_state := main.cache;
     store := row <$> seq 0 16; trace := [] |}.



(** What the ledger answers for an account that staked nothing. *)
Definition nothing_staked : Info :=
  Build_Info 0 0 balance.

(** The cache of [main.py] when a hundred addresses were looked up at time
    0, the address [pretty n] as the [n]-th. *)
Definition full : cachetools.TTLCache Info :=
  {| cachetools.maxsize := 100; cachetools.ttl := 300;
     cachetools.data := (fun n : nat => (pretty n, nothing_staked)) <$> seq 0 100;
     cachetools.chain := (fun n : nat => (pretty n, 300)) <$> seq 0 100 |}.

End scenario.

(** ** The cache over time *)

Section CacheHistory.
Context {V : Type}.

(** The shape every operation keeps: the size bound, one entry and one
    link per key, and a link exactly for the keys that have a value. *)
Record well_formed (c : cachetools.TTLCache V) : Prop := {
  wf_maxsize : (1 <= cachetools.maxsize c)%nat;
  wf_size : (length (cachetools.data c) <= cachetools.maxsize c)%nat;
  wf_data : NoDup (cachetools.data c).*1;
  wf_chain : NoDup (cachetools.chain c).*1;
  wf_keys : forall k, k ∈ (cachetools.chain c).*1 <-> k ∈ (cachetools.data c).*1
}.

(** An operation on the cache, with the time at which it reads the clock. *)
Inductive Op : Type :=
| Contains (key : string) (now : Z)
| GetItem (key : string) (now : Z)
| SetItem (key : string) (value : V) (now : Z).

Definition step (op : Op) (c : cachetools.TTLCache V) : cachetools.TTLCache V :=
  match op with
  | Contains _ _ => c
  | GetItem key now => snd (cachetools.getitem c now key)
  | SetItem key value now => snd (cachetools.setitem c now key value)
  end.

(** The cache after a history of operations, the most recent first. *)
Fixpoint run (history : list Op) (c : cachetools.TTLCache V) : cachetools.TTLCache V :=
  match history with
  | [] => c
  | op :: earlier => step op (run earlier c)
  end.

(** When, and to what, a key was last set in a history. *)
Fixpoint last_set (history : list Op) (key : string) : option (Z * V) :=
  match history with
  | [] => None
  | SetItem k value now :: earlier =>
      if decide (k = key) then Some (now, value) else last_set earlier key
  | _ :: earlier => last_set earlier key
  end.

End CacheHistory.

(** The order of the linked list on a monotonic clock: by expiry time. *)
Definition by_expiry (l1 l2 : string * Z) : Prop := l1.2 <= l2.2.

(** Every link of the cache is in the future. *)
Definition live_all {V : Type} (c : cachetools.TTLCache V) (now : Z) : Prop :=
  forall k e, (k, e) ∈ cachetools.chain c -> now < e.

(** The cache of a world is the cache of [main.py] in one of the states it
    has on a monotonic clock: its links are in the order of their expiry
    times, none of them further than [ttl] ahead. *)
Definition cache_ok (w : World) : Prop :=
  well_formed (cache_state w)
  /\ cachetools.maxsize (cache_state w) = 100%nat
  /\ cachetools.ttl (cache_state w) = 300
  /\ StronglySorted by_expiry (cachetools.chain (cache_state w))
  /\ forall k e, (k, e) ∈ cachetools.chain (cache_state w) -> e <= clock w + 300.

(** The row a commit at interaction [n] inserts. *)
Definition inserted_row (env : Env) (address : string) (info : Info) (n : nat)
    (rows : list models.TronAddressInfo) : models.TronAddressInfo :=
  {| models.id := database.next_id rows; models.address := address;
     models.bandwidth := bandwidth info; models.energy := energy info;
     models.balance := models.to_float (balance info);
     models.timestamp := utcnow env n |}.

(** The exception a commit of [info] at interaction [n] ends with, if any:
    a fault of the database, or an integer it cannot hold. *)
Definition commit_fault (env : Env) (info : Info) (n : nat) : option Exc :=
  match db_fault env n with
  | Some e => Some e
  | None =>
      if database.fits (bandwidth info) && database.fits (energy info) then None
      else Some database.overflow
  end.

(** The world after a database round trip that left the table alone, and
    after a commit. *)
Definition committed (env : Env) (address : string) (info : Info) (w : World) : World :=
  {| clock := clock w + Z.of_nat (latency env (tick w)); tick := S (tick w);
     cache_state := cache_state w;
     store := store w ++ [inserted_row env address info (tick w) (store w)];
     trace := DbCommit :: trace w |}.

(** The rest of the handler once the cache-or-fetch step has returned
    [info]: commit, refresh, answer, any exception going to the [except]
    clauses. *)
Definition finish (env : Env) (address : string) (info : Info) (w : World)
  : Outcome main.AddressInfo * World :=
  match database.commit env address info w with
  | (Raise e, w1) => main.except address e w1
  | (Return _, w1) =>
      match database.refresh env w1 with
      | (Raise e, w2) => main.except address e w2
      | (Return _, w2) =>
          (Return {| main.info_address := address;
                     main.info_bandwidth := bandwidth info;
                     main.info_energy := energy info;
                     main.info_balance := balance info |}, w2)
      end
  end.

(** ** What the operations leave untouched *)

(** What a call of the validator leaves untouched, and how many account
    lookups it makes. *)
Record validator_frame (w w' : World) : Prop := {
  vf_cache : cache_state w' = cache_state w;
  vf_store : store w' = store w;
  vf_resource : resource_calls w' = resource_calls w;
  vf_balance : balance_calls w' = balance_calls w;
  vf_db : db_calls w' = db_calls w;
  vf_account : (account_calls w < account_calls w' <= account_calls w + 3)%nat;
  vf_clock : clock w <= clock w';
  vf_tick : (tick w < tick w')%nat
}.

(** A frame for anything built from the validator and the two reads: the
    cache, the table and the database are left alone, and at most [k]
    resource reads, [k] balance reads and [3 * k] account lookups happen. *)
Record fetch_frame (k : nat) (w w' : World) : Prop := {
  ff_cache : cache_state w' = cache_state w;
  ff_store : store w' = store w;
  ff_db : db_calls w' = db_calls w;
  ff_resource : (resource_calls w <= resource_calls w' <= resource_calls w + k)%nat;
  ff_balance : (balance_calls w <= balance_calls w' <= balance_calls w + k)%nat;
  ff_account : (account_calls w <= account_calls w' <= account_calls w + 3 * k)%nat;
  ff_clock : clock w <= clock w';
  ff_tick : (tick w <= tick w')%nat
}.

(** What holds of a cache that started empty with room for at least one
    key, after any history: its shape, and that every link and every value
    it holds come from the last time their key was set. *)
Record history_invariant (maxsize : nat) (ttl : Z)
    {V : Type}
    (history : list (@Op V)) (c : cachetools.TTLCache V) : Prop := {
  hi_well_formed : well_formed c;
  hi_maxsize : cachetools.maxsize c = maxsize;
  hi_ttl : cachetools.ttl c = ttl;
  hi_chain : forall k e, (k, e) ∈ cachetools.chain c ->
                         exists v, last_set history k = Some (e - ttl, v);
  hi_data : forall k v, (k, v) ∈ cachetools.data c ->
                        exists stored, last_set history k = Some (stored, v)
}.

(** The seconds slept so far between attempts. *)
Definition slept (w : World) : Z := foldr Z.add 0 (sleeps (trace w)).

(** Between two worlds, the balance was read no more often than the
    resource, and the resource no more often than the account was looked
    up. *)
Record reads_in_order (w w' : World) : Prop := {
  ro_account : (account_calls w <= account_calls w')%nat;
  ro_resource : (resource_calls w <= resource_calls w')%nat;
  ro_balance : (balance_calls w <= balance_calls w')%nat;
  ro_balance_resource :
    (balance_calls w' - balance_calls w <= resource_calls w' - resource_calls w)%nat;
  ro_resource_account :
    (resource_calls w' - resource_calls w <= account_calls w' - account_calls w)%nat
}.

(** ** Histories on a monotonic clock *)

Section HistoryShape.
Context {V : Type}.

Definition op_key (op : @Op V) : string :=
  match op with
  | Contains key _ | GetItem key _ | SetItem key _ _ => key
  end.

Definition op_time (op : @Op V) : Z :=
  match op with
  | Contains _ now | GetItem _ now | SetItem _ _ now => now
  end.

(** The clock never goes back: in a history, the most recent operation
    first, no operation is earlier than one below it. *)
Definition monotonic (history : list (@Op V)) : Prop :=
  StronglySorted (fun later earlier => op_time earlier <= op_time later) history.

(** The entries of an ordered dictionary that were used more recently than
    [key]: those behind it. *)
Fixpoint used_after (key : string) (l : list (string * V)) : list (string * V) :=
  match l with
  | [] => []
  | (k, _) :: l' => if decide (k = key) then l' else used_after key l'
  end.

(** What it means that the cache still holds [key] with [value], expiring
    at [expires], with at most [n] entries used more recently. *)
Definition holds (c : cachetools.TTLCache V) (key : string) (value : V)
    (expires : Z) (n : nat) : Prop :=
  cachetools.assoc key (cachetools.chain c) = Some expires
  /\ cachetools.assoc key (cachetools.data c) = Some value
  /\ (length (used_after key (cachetools.data c)) <= n)%nat.

End HistoryShape.

(** ** The process over time *)




(** * Proofs *)

(** ** The retry loop *)

Lemma wait_exponential_first : tenacity.wait_exponential 1 1 10 1 = 1.
Proof. reflexivity. Qed.

Lemma wait_exponential_second : tenacity.wait_exponential 1 1 10 2 = 2.
Proof. reflexivity. Qed.

Lemma wait_exponential_bounds (n : nat) :
  1 <= tenacity.wait_exponential 1 1 10 n <= 10.
Proof. unfold tenacity.wait_exponential. lia. Qed.

Lemma wait_exponential_doubles (n : nat) :
  (1 <= n)%nat ->
  tenacity.wait_exponential 1 1 10 (S n)
  = Z.min (2 * tenacity.wait_exponential 1 1 10 n) 10.
Proof.
  intros Hn. unfold tenacity.wait_exponential.
  replace (Z.of_nat (S n) - 1) with (Z.succ (Z.of_nat n - 1)) by lia.
  rewrite Z.pow_succ_r by lia.
  assert (1 <= 2 ^ (Z.of_nat n - 1)) by (apply Z.pow_le_mono_r with (b := 0); lia).
  lia.
Qed.

Section Decorated.
Context {A : Type} (name : string) (fn : M A).

Lemma attempts_step (fuel attempt_number : nat) (w : World) :
  tenacity.attempts 3 (tenacity.wait_exponential 1 1 10)
    tenacity.retry_if_exception_type
    (fun n => log INFO ("Retrying " +:+ name +:+ ": attempt " +:+ pretty n))
    fn (S fuel) attempt_number w
  = match fn w with
    | (Return a, w1) => (Return a, w1)
    | (Raise e, w1) =>
        if negb (tenacity.retry_if_exception_type e) then (Raise e, w1)
        else if tenacity.stop_after_attempt 3 attempt_number
        then (Raise (RetryError e), w1)
        else
          tenacity.attempts 3 (tenacity.wait_exponential 1 1 10)
            tenacity.retry_if_exception_type
            (fun n => log INFO ("Retrying " +:+ name +:+ ": attempt " +:+ pretty n))
            fn fuel (S attempt_number) (pause name attempt_number w1)
    end.
Proof. reflexivity. Qed.

(** The loop of three attempts, written out. *)
Lemma decorated_unfold (w : World) :
  decorated name fn w =
  let '(o1, w1) := fn w in
  if final o1 then (o1, w1)
  else
    let '(o2, w2) := fn (pause name 1 w1) in
    if final o2 then (o2, w2)
    else
      let '(o3, w3) := fn (pause name 2 w2) in
      (exhausted o3, w3).
Proof.
  unfold decorated, tenacity.retry. rewrite attempts_step.
  destruct (fn w) as [[a1|e1] w1]; [reflexivity|].
  cbn [final]. destruct (tenacity.retry_if_exception_type e1) eqn:E1; [|reflexivity].
  cbn [negb]. change (tenacity.stop_after_attempt 3 1) with false. cbv iota.
  rewrite attempts_step.
  destruct (fn (pause name 1 w1)) as [[a2|e2] w2]; [reflexivity|].
  cbn [final]. destruct (tenacity.retry_if_exception_type e2) eqn:E2; [|reflexivity].
  cbn [negb]. change (tenacity.stop_after_attempt 3 2) with false. cbv iota.
  rewrite attempts_step.
  destruct (fn (pause name 2 w2)) as [[a3|e3] w3]; [reflexivity|].
  cbn [exhausted]. destruct (tenacity.retry_if_exception_type e3) eqn:E3; reflexivity.
Qed.

End Decorated.

(** ** tron_service.py: what one call does to the world *)

Ltac frame_auto :=
  split; cbn;
  unfold account_calls, resource_calls, balance_calls, db_calls; cbn;
  first [reflexivity | lia].

Section Service.
Variable env : Env.

Lemma validate_tron_address_decorated (address : string) :
  tron_service.validate_tron_address env address
  = decorated "validate_tron_address" (tron_service.validate_tron_address_body env address).
Proof. reflexivity. Qed.

Lemma get_address_info_decorated (address : string) :
  tron_service.get_address_info env address
  = decorated "get_address_info" (tron_service.get_address_info_body env address).
Proof. reflexivity. Qed.

(** One attempt of the validator, by the answer of the ledger. *)
Lemma validate_tron_address_body_eq (address : string) (w : World) :
  tron_service.validate_tron_address_body env address w
  = match get_account env (tick w) address with
    | Return _ => (Return true, called env (Call_get_account address) w)
    | Raise (AddressNotFound _) =>
        (Return false,
         logged WARNING ("Invalid Tron address attempted: " +:+ address)
           (called env (Call_get_account address) w))
    | Raise e => (Raise e, called env (Call_get_account address) w)
    end.
Proof.
  unfold tron_service.validate_tron_address_body, try_except, bind, external, ret.
  destruct (get_account env (tick w) address) as [[]|[]]; reflexivity.
Qed.

Lemma validate_tron_address_frame (address : string) (w w' : World) (r : Outcome bool) :
  tron_service.validate_tron_address env address w = (r, w') ->
  validator_frame w w'.
Proof.
  rewrite validate_tron_address_decorated, decorated_unfold.
  rewrite !validate_tron_address_body_eq.
  pose proof (wait_exponential_bounds 1) as B1.
  pose proof (wait_exponential_bounds 2) as B2.
  destruct (get_account env (tick w) address) as [[]|[]];
    cbn [final tenacity.retry_if_exception_type negb];
    try (intros [= <- <-]; frame_auto).
  all: rewrite !validate_tron_address_body_eq;
    match goal with |- context [get_account _ ?n ?a] =>
      destruct (get_account env n a) as [[]|[]] end;
    cbn [final tenacity.retry_if_exception_type negb];
    try (intros [= <- <-]; frame_auto).
  all: rewrite !validate_tron_address_body_eq;
    match goal with |- context [get_account _ ?n ?a] =>
      destruct (get_account env n a) as [[]|[]] end;
    cbn [exhausted tenacity.retry_if_exception_type];
    intros [= <- <-]; frame_auto.
Qed.

End Service.

(** ** Consequences of the written-out loop *)

Section DecoratedFacts.
Context {A : Type} (name : string) (fn : M A).

(** A first attempt that ends the loop is the whole call. *)
Lemma decorated_first (w w1 : World) (o : Outcome A) :
  fn w = (o, w1) -> final o = true -> decorated name fn w = (o, w1).
Proof. intros H F. rewrite decorated_unfold, H, F. reflexivity. Qed.

(** A result comes from an attempt that returned it. *)
Lemma decorated_return_inv (w w' : World) (a : A) :
  decorated name fn w = (Return a, w') ->
  exists wi, fn wi = (Return a, w').
Proof.
  rewrite decorated_unfold.
  destruct (fn w) as [o1 w1] eqn:E1. destruct (final o1).
  { intros [= -> ->]. eauto. }
  destruct (fn (pause name 1 w1)) as [o2 w2] eqn:E2. destruct (final o2).
  { intros [= -> ->]. eauto. }
  destruct (fn (pause name 2 w2)) as [o3 w3] eqn:E3.
  destruct o3 as [a3|e3]; cbn [exhausted].
  - intros [= -> ->]. eauto.
  - destruct (tenacity.retry_if_exception_type e3); discriminate.
Qed.

(** The loop never lets a network-class exception out: it retries it, and
    after the last attempt wraps it. *)
Lemma decorated_never_network (w w' : World) (e : Exc) :
  decorated name fn w = (Raise e, w') ->
  tenacity.retry_if_exception_type e = false.
Proof.
  rewrite decorated_unfold.
  destruct (fn w) as [o1 w1] eqn:E1. destruct (final o1) eqn:F1.
  { intros [= -> ->]. cbn in F1. destruct (tenacity.retry_if_exception_type e); [discriminate|reflexivity]. }
  destruct (fn (pause name 1 w1)) as [o2 w2] eqn:E2. destruct (final o2) eqn:F2.
  { intros [= -> ->]. cbn in F2. destruct (tenacity.retry_if_exception_type e); [discriminate|reflexivity]. }
  destruct (fn (pause name 2 w2)) as [o3 w3] eqn:E3.
  destruct o3 as [a3|e3]; cbn [exhausted]; [discriminate|].
  destruct (tenacity.retry_if_exception_type e3) eqn:R3.
  - intros [= <- <-]. reflexivity.
  - intros [= <- <-]. exact R3.
Qed.

(** Two network failures, then a result: three attempts, the delays 1 and 2. *)
Lemma decorated_third_time (w w1 w2 w3 : World) (e1 e2 : Exc) (o3 : Outcome A) :
  fn w = (Raise e1, w1) -> tenacity.retry_if_exception_type e1 = true ->
  fn (pause name 1 w1) = (Raise e2, w2) -> tenacity.retry_if_exception_type e2 = true ->
  fn (pause name 2 w2) = (o3, w3) ->
  decorated name fn w = (exhausted o3, w3).
Proof.
  intros H1 R1 H2 R2 H3. rewrite decorated_unfold, H1. cbn [final]. rewrite R1. cbn [negb].
  rewrite H2. cbn [final]. rewrite R2. cbn [negb]. rewrite H3. reflexivity.
Qed.

End DecoratedFacts.

Section Fetch.
Variable env : Env.

(** One attempt of [get_address_info], by the answers of the ledger. *)
Lemma get_address_info_body_eq (address : string) (w : World) :
  tron_service.get_address_info_body env address w
  = match tron_service.validate_tron_address env address w with
    | (Raise e, w1) => (Raise e, w1)
    | (Return false, w1) => (Raise (ValueError "Invalid Tron address"), w1)
    | (Return true, w1) =>
        let w2 := called env (Call_get_account_resource address) w1 in
        let w3 := called env (Call_get_account_balance address) w2 in
        match get_account_resource env (tick w1) address with
        | Raise e =>
            (Raise e,
             logged ERROR ("Failed to retrieve info for address " +:+ address +:+ ": " +:+ str e) w2)
        | Return resource =>
            match get_account_balance env (S (tick w1)) address with
            | Raise e =>
                (Raise e,
                 logged ERROR ("Failed to retrieve info for address " +:+ address +:+ ": " +:+ str e) w3)
            | Return balance =>
                (Return {| bandwidth := default 0 (resource !! "NetLimit");
                           energy := default 0 (resource !! "EnergyLimit");
                           balance := balance |},
                 logged INFO ("Successfully retrieved info for address: " +:+ address) w3)
            end
        end
    end.
Proof.
  unfold tron_service.get_address_info_body, bind.
  destruct (tron_service.validate_tron_address env address w) as [[[]|e] w1]; try reflexivity.
  cbn [negb]. unfold try_except, bind, external. cbn [tick].
  destruct (get_account_resource env (tick w1) address) as [resource|e]; [|reflexivity].
  destruct (get_account_balance env (S (tick w1)) address) as [bal|e]; reflexivity.
Qed.

End Fetch.

Lemma fetch_frame_trans (j k : nat) (w1 w2 w3 : World) :
  fetch_frame j w1 w2 -> fetch_frame k w2 w3 -> fetch_frame (j + k) w1 w3.
Proof.
  intros [] []. split; try congruence; try lia.
Qed.

Lemma fetch_frame_pause (name : string) (n : nat) (w : World) :
  fetch_frame 0 w (pause name n w).
Proof.
  pose proof (wait_exponential_bounds n). frame_auto.
Qed.

Section FetchFrame.
Variable env : Env.

Lemma get_address_info_body_frame (address : string) (w w' : World) (o : Outcome Info) :
  tron_service.get_address_info_body env address w = (o, w') ->
  fetch_frame 1 w w'.
Proof.
  rewrite get_address_info_body_eq.
  destruct (tron_service.validate_tron_address env address w) as [r w1] eqn:V.
  apply validate_tron_address_frame in V. destruct V.
  assert (fetch_frame 1 w w1) as F1 by (split; try congruence; lia).
  destruct r as [[]|e]; [| intros [= <- <-]; exact F1 ..].
  cbv zeta.
  destruct (get_account_resource env (tick w1) address) as [resource|e].
  - destruct (get_account_balance env (S (tick w1)) address) as [bal|e];
      intros [= <- <-]; split; cbn;
      unfold account_calls, resource_calls, balance_calls, db_calls in *; cbn;
      first [congruence | lia].
  - intros [= <- <-]; split; cbn;
      unfold account_calls, resource_calls, balance_calls, db_calls in *; cbn;
      first [congruence | lia].
Qed.

Lemma get_address_info_frame (address : string) (w w' : World) (o : Outcome Info) :
  tron_service.get_address_info env address w = (o, w') ->
  fetch_frame 3 w w'.
Proof.
  rewrite get_address_info_decorated, decorated_unfold.
  destruct (tron_service.get_address_info_body env address w) as [o1 w1] eqn:E1.
  apply get_address_info_body_frame in E1.
  assert (forall w2, fetch_frame 1 w w2 -> fetch_frame 3 w w2) as Up1
    by (intros ? []; split; try assumption; lia).
  destruct (final o1); [intros [= <- <-]; auto|].
  destruct (tron_service.get_address_info_body env address (pause _ 1 w1)) as [o2 w2] eqn:E2.
  apply get_address_info_body_frame in E2.
  pose proof (fetch_frame_trans _ _ _ _ _
                (fetch_frame_trans _ _ _ _ _ E1 (fetch_frame_pause _ 1 w1)) E2) as F2.
  cbn in F2.
  destruct (final o2).
  { intros [= <- <-]. destruct F2; split; try assumption; lia. }
  destruct (tron_service.get_address_info_body env address (pause _ 2 w2)) as [o3 w3] eqn:E3.
  apply get_address_info_body_frame in E3.
  pose proof (fetch_frame_trans _ _ _ _ _
                (fetch_frame_trans _ _ _ _ _ F2 (fetch_frame_pause _ 2 w2)) E3) as F3.
  intros [= <- <-]. exact F3.
Qed.

End FetchFrame.

(** ** The claims about [tron_service.py] *)

(** C8. [get_address_info] validates its address again before it reads
    anything: when the validator answers false the call raises
    [ValueError("Invalid Tron address")] in the world the validator left,
    so after a single attempt, with no sleep, no retry and no resource or
    balance read. *)
Theorem get_address_info_invalid_fails_fast
    (env : Env) (address : string) (w w1 : World) :
  tron_service.validate_tron_address env address w = (Return false, w1) ->
  tron_service.get_address_info env address w
    = (Raise (ValueError "Invalid Tron address"), w1)
  /\ tenacity.retry_if_exception_type (ValueError "Invalid Tron address") = false
  /\ resource_calls w1 = resource_calls w
  /\ balance_calls w1 = balance_calls w.
Proof.
  intros V. split; [|split; [reflexivity|]].
  - rewrite get_address_info_decorated.
    apply decorated_first; [|reflexivity].
    rewrite get_address_info_body_eq, V. reflexivity.
  - pose proof (validate_tron_address_frame _ _ _ _ _ V) as []. auto.
Qed.

Lemma get_address_info_invalid_fails_fast_witness :
  tron_service.get_address_info scenario.unknown_address scenario.address scenario.start
  = (Raise (ValueError "Invalid Tron address"),
     snd (tron_service.validate_tron_address
            scenario.unknown_address scenario.address scenario.start)).
Proof.
  apply (get_address_info_invalid_fails_fast
           scenario.unknown_address scenario.address scenario.start).
  reflexivity.
Defined.

(** A result of [get_address_info] is the result of one of its attempts,
    started no earlier than the call. *)
Lemma get_address_info_return_inv
    (env : Env) (address : string) (w w' : World) (info : Info) :
  tron_service.get_address_info env address w = (Return info, w') ->
  exists wi, (tick w <= tick wi)%nat
             /\ tron_service.get_address_info_body env address wi = (Return info, w').
Proof.
  rewrite get_address_info_decorated, decorated_unfold.
  destruct (tron_service.get_address_info_body env address w) as [o1 w1] eqn:E1.
  pose proof (get_address_info_body_frame _ _ _ _ _ E1) as [].
  destruct (final o1).
  { intros [= -> ->]. exists w. split; [lia|assumption]. }
  destruct (tron_service.get_address_info_body env address (pause _ 1 w1)) as [o2 w2] eqn:E2.
  pose proof (get_address_info_body_frame _ _ _ _ _ E2) as [].
  destruct (final o2).
  { intros [= -> ->]. eexists. split; [|eassumption]. cbn in *. lia. }
  destruct (tron_service.get_address_info_body env address (pause _ 2 w2)) as [o3 w3] eqn:E3.
  destruct o3 as [a3|e3]; cbn [exhausted].
  - intros [= -> ->]. eexists. split; [|eassumption]. cbn in *. lia.
  - destruct (tenacity.retry_if_exception_type e3); discriminate.
Qed.

(** C7. Whenever [get_address_info] returns, the dictionary it returns was
    built from the last two answers of the ledger: [bandwidth] is the
    [NetLimit] of the account resource and [energy] its [EnergyLimit], each
    0 when the key is not set, and [balance] is the account balance.  And
    it does return so whenever the validator accepts the address and the
    ledger answers the two reads. *)
Theorem get_address_info_fields (env : Env) (address : string) :
  (forall (w w' : World) (info : Info),
      tron_service.get_address_info env address w = (Return info, w') ->
      exists (n : nat) (resource : gmap string Z),
        (tick w < n)%nat /\ tick w' = S (S n)
        /\ get_account_resource env n address = Return resource
        /\ get_account_balance env (S n) address = Return (balance info)
        /\ bandwidth info = default 0 (resource !! "NetLimit")
        /\ energy info = default 0 (resource !! "EnergyLimit"))
  /\ (forall (w w1 : World) (resource : gmap string Z) (bal : Decimal),
        tron_service.validate_tron_address env address w = (Return true, w1) ->
        get_account_resource env (tick w1) address = Return resource ->
        get_account_balance env (S (tick w1)) address = Return bal ->
        fst (tron_service.get_address_info env address w)
        = Return {| bandwidth := default 0 (resource !! "NetLimit");
                    energy := default 0 (resource !! "EnergyLimit");
                    balance := bal |}).
Proof.
  split.
  - intros w w' info H.
    apply get_address_info_return_inv in H as (wi & Hwi & H).
    rewrite get_address_info_body_eq in H.
    destruct (tron_service.validate_tron_address env address wi) as [r w1] eqn:V.
    pose proof (validate_tron_address_frame _ _ _ _ _ V) as [].
    destruct r as [[]|e]; [|discriminate..].
    cbv zeta in H.
    destruct (get_account_resource env (tick w1) address) as [resource|e] eqn:R; [|discriminate].
    destruct (get_account_balance env (S (tick w1)) address) as [bal|e] eqn:B; [|discriminate].
    injection H as <- <-. exists (tick w1), resource. cbn.
    repeat split; try assumption; try reflexivity. lia.
  - intros w w1 resource bal V R B.
    rewrite get_address_info_decorated.
    erewrite decorated_first; [reflexivity| |reflexivity].
    rewrite get_address_info_body_eq, V. cbv zeta. rewrite R, B. reflexivity.
Qed.

Lemma get_address_info_fields_witness :
  fst (tron_service.get_address_info scenario.staked scenario.address scenario.start)
  = Return {| bandwidth := 600; energy := 1500; balance := scenario.balance |}
  /\ fst (tron_service.get_address_info scenario.healthy scenario.address scenario.start)
     = Return {| bandwidth := 0; energy := 0; balance := scenario.balance |}.
Proof.
  split.
  - etransitivity.
    + apply (proj2 (get_address_info_fields scenario.staked scenario.address)
               scenario.start
               (snd (tron_service.validate_tron_address
                       scenario.staked scenario.address scenario.start))
               (<["NetLimit" := 600]> (<["EnergyLimit" := 1500]> ∅))
               scenario.balance); reflexivity.
    + vm_compute. reflexivity.
  - etransitivity.
    + apply (proj2 (get_address_info_fields scenario.healthy scenario.address)
               scenario.start
               (snd (tron_service.validate_tron_address
                       scenario.healthy scenario.address scenario.start))
               ∅ scenario.balance); reflexivity.
    + vm_compute. reflexivity.
Defined.

(** ** main.py: the lookup handler *)

Section Handler.
Variable env : Env.

(** The handler, by the outcome of each of its steps. *)
Lemma get_address_info_endpoint_eq (request : main.AddressRequest) (w : World) :
  main.get_address_info_endpoint env request w
  = let address := main.address request in
    match tron_service.validate_tron_address env address w with
    | (Raise e, w1) => (Raise e, w1)
    | (Return false, w1) => (Raise (HTTPException 400 "Invalid Tron address"), w1)
    | (Return true, w1) =>
        match main.lookup_info env address w1 with
        | (Raise e, w2) => main.except address e w2
        | (Return info, w2) =>
            match database.commit env address info w2 with
            | (Raise e, w3) => main.except address e w3
            | (Return _, w3) =>
                match database.refresh env w3 with
                | (Raise e, w4) => main.except address e w4
                | (Return _, w4) =>
                    (Return {| main.info_address := address;
                               main.info_bandwidth := bandwidth info;
                               main.info_energy := energy info;
                               main.info_balance := balance info |}, w4)
                end
            end
        end
    end.
Proof.
  unfold main.get_address_info_endpoint, bind. cbv zeta.
  destruct (tron_service.validate_tron_address env (main.address request) w)
    as [[[]|e] w1]; try reflexivity.
  cbn [negb]. unfold try_except, bind.
  destruct (main.lookup_info env (main.address request) w1) as [[info|e] w2]; [|reflexivity].
  destruct (database.commit env (main.address request) info w2) as [[[]|e] w3]; [|reflexivity].
  destruct (database.refresh env w3) as [[[]|e] w4]; reflexivity.
Qed.

End Handler.

(** C1. When the validator answers false, [POST /address_info] raises
    [HTTPException(400, "Invalid Tron address")], which FastAPI answers
    with status 400 and that detail, in the very world the validator left:
    the upstream client has read neither the account resource nor the
    balance, the database has not been called, and the table and the cache
    are as they were. *)
Theorem invalid_address_is_rejected
    (env : Env) (request : main.AddressRequest) (w w1 : World) :
  tron_service.validate_tron_address env (main.address request) w = (Return false, w1) ->
  main.get_address_info_endpoint env request w
    = (Raise (HTTPException 400 "Invalid Tron address"), w1)
  /\ main.respond (fst (main.get_address_info_endpoint env request w))
     = (400, Some "Invalid Tron address")
  /\ resource_calls w1 = resource_calls w
  /\ balance_calls w1 = balance_calls w
  /\ db_calls w1 = db_calls w
  /\ store w1 = store w
  /\ cache_state w1 = cache_state w.
Proof.
  intros V.
  assert (main.get_address_info_endpoint env request w
          = (Raise (HTTPException 400 "Invalid Tron address"), w1)) as E
    by (rewrite get_address_info_endpoint_eq; cbv zeta; rewrite V; reflexivity).
  pose proof (validate_tron_address_frame _ _ _ _ _ V) as [].
  rewrite E. repeat split; assumption.
Qed.

Lemma invalid_address_is_rejected_witness :
  main.respond
    (fst (main.get_address_info_endpoint
            scenario.unknown_address scenario.request scenario.start))
  = (400, Some "Invalid Tron address").
Proof.
  apply (invalid_address_is_rejected scenario.unknown_address scenario.request
           scenario.start
           (snd (tron_service.validate_tron_address
                   scenario.unknown_address scenario.address scenario.start))).
  reflexivity.
Defined.

(** ** cachetools: association lists *)

Section Assoc.
Context {B : Type}.
Implicit Types (l : list (string * B)) (k : string).

Lemma assoc_app k l1 l2 :
  cachetools.assoc k (l1 ++ l2)
  = match cachetools.assoc k l1 with
    | Some b => Some b
    | None => cachetools.assoc k l2
    end.
Proof.
  induction l1 as [|[k' b] l1 IH]; [reflexivity|].
  cbn. destruct (decide (k' = k)); [reflexivity|exact IH].
Qed.

Lemma assoc_remove_eq k l : cachetools.assoc k (cachetools.remove k l) = None.
Proof.
  induction l as [|[k' b] l IH]; [reflexivity|].
  cbn. destruct (decide (k' = k)) as [|Hne]; [exact IH|].
  cbn. destruct (decide (k' = k)); [contradiction|exact IH].
Qed.

Lemma assoc_remove_ne k k' l :
  k <> k' -> cachetools.assoc k' (cachetools.remove k l) = cachetools.assoc k' l.
Proof.
  intros Hne. induction l as [|[k0 b] l IH]; [reflexivity|].
  cbn. destruct (decide (k0 = k)) as [->|].
  - destruct (decide (k = k')); [contradiction|exact IH].
  - cbn. destruct (decide (k0 = k')); [reflexivity|exact IH].
Qed.

Lemma assoc_Some_elem k b l : cachetools.assoc k l = Some b -> (k, b) ∈ l.
Proof.
  induction l as [|[k' b'] l IH]; [discriminate|].
  cbn. destruct (decide (k' = k)) as [->|].
  - intros [= ->]. left.
  - intros H. right. auto.
Qed.

Lemma assoc_None k l : cachetools.assoc k l = None <-> k ∉ l.*1.
Proof.
  induction l as [|[k' b'] l IH]; cbn.
  - split; [intros _; apply not_elem_of_nil|reflexivity].
  - rewrite not_elem_of_cons. destruct (decide (k' = k)) as [->|Hne].
    + split; [discriminate|intros [? _]; contradiction].
    + rewrite IH. split; [intros ?; split; [congruence|assumption]|intros [_ ?]; assumption].
Qed.

Lemma assoc_is_Some k l : is_Some (cachetools.assoc k l) <-> k ∈ l.*1.
Proof.
  destruct (cachetools.assoc k l) eqn:E.
  - split; [|eauto]. intros _. apply assoc_Some_elem in E.
    apply (list_elem_of_fmap_2 fst) in E. exact E.
  - split; [intros [? [=]]|]. intros Hin. apply assoc_None in E. contradiction.
Qed.

Lemma elem_of_remove k k' b l :
  (k', b) ∈ cachetools.remove k l <-> k' <> k /\ (k', b) ∈ l.
Proof.
  induction l as [|[k0 b0] l IH]; cbn.
  - split; [intros H; inversion H|intros [_ H]; inversion H].
  - destruct (decide (k0 = k)) as [->|Hne].
    + rewrite IH, elem_of_cons. split; [tauto|].
      intros [Hk [Heq|Hin]]; [congruence|tauto].
    + rewrite !elem_of_cons, IH. split; [|tauto].
      intros [Heq|Hin]; [|tauto]. split; [congruence|tauto].
Qed.

Lemma keys_remove k k' l :
  k' ∈ (cachetools.remove k l).*1 <-> k' <> k /\ k' ∈ l.*1.
Proof.
  rewrite !list_elem_of_fmap. split.
  - intros [[k0 b] [-> H]]. apply elem_of_remove in H as [? ?].
    split; [assumption|]. exists (k0, b). auto.
  - intros [Hne [[k0 b] [-> H]]]. exists (k0, b). split; [reflexivity|].
    apply elem_of_remove. auto.
Qed.

Lemma NoDup_remove k l : NoDup l.*1 -> NoDup (cachetools.remove k l).*1.
Proof.
  induction l as [|[k0 b0] l IH]; cbn; [auto|].
  rewrite NoDup_cons. intros [Hnin Hnd].
  destruct (decide (k0 = k)); [auto|].
  cbn. apply NoDup_cons. split; [|auto].
  rewrite keys_remove. tauto.
Qed.

Lemma length_remove_le k l : (length (cachetools.remove k l) <= length l)%nat.
Proof.
  induction l as [|[k0 b0] l IH]; cbn; [lia|].
  destruct (decide (k0 = k)); cbn; lia.
Qed.

Lemma length_remove_lt k l :
  k ∈ l.*1 -> (length (cachetools.remove k l) < length l)%nat.
Proof.
  induction l as [|[k0 b0] l IH]; cbn.
  - intros H. inversion H.
  - rewrite elem_of_cons. pose proof (length_remove_le k l) as Hle.
    destruct (decide (k0 = k)) as [|Hne]; cbn; [lia|].
    intros [Heq|Hin]; [congruence|]. specialize (IH Hin). lia.
Qed.

Lemma NoDup_remove_snoc k b l :
  NoDup l.*1 -> NoDup (cachetools.remove k l ++ [(k, b)]).*1.
Proof.
  intros Hnd. rewrite fmap_app. apply NoDup_app. split; [apply NoDup_remove, Hnd|].
  split; [|apply NoDup_singleton].
  intros k' Hin. cbn. rewrite list_elem_of_singleton. intros ->.
  apply keys_remove in Hin. tauto.
Qed.

Lemma keys_remove_snoc k k' b l :
  k' ∈ (cachetools.remove k l ++ [(k, b)]).*1 <-> k' = k \/ k' ∈ l.*1.
Proof.
  rewrite fmap_app, elem_of_app, keys_remove. cbn. rewrite list_elem_of_singleton.
  destruct (decide (k' = k)); tauto.
Qed.

End Assoc.

(** ** cachetools: the operations keep the cache well formed *)

Section CacheFacts.
Context {V : Type}.
Implicit Types (c : cachetools.TTLCache V) (k key : string) (now : Z).

Lemma StronglySorted_remove key (ch : list (string * Z)) :
  StronglySorted by_expiry ch -> StronglySorted by_expiry (cachetools.remove key ch).
Proof.
  induction 1 as [|[k e] ch Hs IH Hall]; cbn; [constructor|].
  destruct (decide (k = key)); [exact IH|].
  constructor; [exact IH|].
  rewrite Forall_forall in *. intros [k' e'] Hin.
  apply elem_of_remove in Hin as [_ Hin]. auto.
Qed.

(** The loop of [expire] keeps a tail of the linked list, whose head, if
    any, is live, and removes from the dictionary the keys it drops. *)
Lemma expire_loop_spec now (ch : list (string * Z)) (d : list (string * V)) :
  NoDup ch.*1 -> NoDup d.*1 -> (forall k, k ∈ ch.*1 <-> k ∈ d.*1) ->
  let '(d', ch') := cachetools.expire_loop now ch d in
  NoDup ch'.*1 /\ NoDup d'.*1 /\ (forall k, k ∈ ch'.*1 <-> k ∈ d'.*1)
  /\ (length d' <= length d)%nat
  /\ (forall k e, (k, e) ∈ ch' -> (k, e) ∈ ch)
  /\ (forall k v, (k, v) ∈ d' -> (k, v) ∈ d)
  /\ cachetools.expire_loop now ch' d' = (d', ch')
  /\ (exists dropped, ch = dropped ++ ch')
  /\ (forall k e rest, ch' = (k, e) :: rest -> now < e).
Proof.
  revert d. induction ch as [|[k0 e0] ch IH]; intros d Hch Hd Hk; cbn.
  { split_and!; auto; try apply Hk; [exists []; reflexivity|discriminate]. }
  destruct (bool_decide (now < e0)) eqn:E.
  { cbn. rewrite E. split_and!; auto; try apply Hk; [exists []; reflexivity|].
    intros k e rest [= -> -> ->]. apply bool_decide_eq_true in E. exact E. }
  cbn in Hch. apply NoDup_cons in Hch as [Hnin Hch].
  specialize (IH (cachetools.remove k0 d) Hch (NoDup_remove _ _ Hd)).
  destruct (cachetools.expire_loop now ch (cachetools.remove k0 d)) as [d' ch'].
  destruct IH as (H1 & H2 & H3 & H4 & H5 & H6 & H7 & [dropped H8] & H9).
  { intros k. rewrite keys_remove, <- Hk. cbn. rewrite elem_of_cons.
    split; [|tauto]. intros Hin. split; [|tauto]. intros ->. contradiction. }
  pose proof (length_remove_le k0 d).
  split_and!; auto; try apply H3; try lia.
  - intros k e Hin. right. auto.
  - intros k v Hin. apply H6 in Hin. apply elem_of_remove in Hin. tauto.
  - exists ((k0, e0) :: dropped). rewrite H8. reflexivity.
Qed.

Lemma expire_well_formed c now :
  well_formed c -> well_formed (cachetools.expire c now).
Proof.
  intros [Hm Hs Hd Hc Hk]. unfold cachetools.expire.
  pose proof (expire_loop_spec now _ _ Hc Hd Hk) as H.
  destruct (cachetools.expire_loop now (cachetools.chain c) (cachetools.data c)) as [d' ch'].
  destruct H as (H1 & H2 & H3 & H4 & _). split; cbn; auto. lia.
Qed.

Lemma expire_idempotent c now :
  well_formed c ->
  cachetools.expire (cachetools.expire c now) now = cachetools.expire c now.
Proof.
  intros [Hm Hs Hd Hc Hk]. unfold cachetools.expire.
  pose proof (expire_loop_spec now _ _ Hc Hd Hk) as H.
  destruct (cachetools.expire_loop now (cachetools.chain c) (cachetools.data c)) as [d' ch'].
  destruct H as (_ & _ & _ & _ & _ & _ & H7 & _). cbn. rewrite H7. reflexivity.
Qed.

Lemma expire_maxsize c now :
  cachetools.maxsize (cachetools.expire c now) = cachetools.maxsize c
  /\ cachetools.ttl (cachetools.expire c now) = cachetools.ttl c.
Proof.
  unfold cachetools.expire.
  destruct (cachetools.expire_loop now (cachetools.chain c) (cachetools.data c)).
  split; reflexivity.
Qed.

(** What [expire] keeps was there before. *)
Lemma expire_subset c now :
  well_formed c ->
  (forall k e, (k, e) ∈ cachetools.chain (cachetools.expire c now) -> (k, e) ∈ cachetools.chain c)
  /\ (forall k v, (k, v) ∈ cachetools.data (cachetools.expire c now) -> (k, v) ∈ cachetools.data c).
Proof.
  intros [Hm Hs Hd Hc Hk]. unfold cachetools.expire.
  pose proof (expire_loop_spec now _ _ Hc Hd Hk) as H.
  destruct (cachetools.expire_loop now (cachetools.chain c) (cachetools.data c)) as [d' ch'].
  destruct H as (_ & _ & _ & _ & H5 & H6 & _). split; assumption.
Qed.

(** When the links are in the order of their expiry, [expire] leaves only
    live ones. *)
Lemma expire_sorted c now :
  well_formed c -> StronglySorted by_expiry (cachetools.chain c) ->
  StronglySorted by_expiry (cachetools.chain (cachetools.expire c now))
  /\ live_all (cachetools.expire c now) now.
Proof.
  intros [Hm Hs Hd Hc Hk] Hsorted. unfold cachetools.expire, live_all.
  pose proof (expire_loop_spec now _ _ Hc Hd Hk) as H.
  destruct (cachetools.expire_loop now (cachetools.chain c) (cachetools.data c)) as [d' ch'].
  destruct H as (_ & _ & _ & _ & _ & _ & _ & [dropped H8] & H9). cbn.
  rewrite H8 in Hsorted. apply StronglySorted_app_1_r in Hsorted.
  split; [exact Hsorted|].
  destruct ch' as [|[k0 e0] rest]; [intros k e Hin; inversion Hin|].
  specialize (H9 k0 e0 rest eq_refl).
  apply StronglySorted_cons in Hsorted as [Hall _]. rewrite Forall_forall in Hall.
  intros k e. rewrite elem_of_cons. intros [[= -> ->]|Hin]; [exact H9|].
  specialize (Hall _ Hin). unfold by_expiry in Hall. cbn in Hall. lia.
Qed.

End CacheFacts.

Section CacheOperations.
Context {V : Type}.
Implicit Types (c : cachetools.TTLCache V) (k key : string) (now : Z).

(** Removing a key from both orders keeps the shape. *)
Lemma remove_well_formed c key :
  well_formed c ->
  well_formed (cachetools.with_data c (cachetools.remove key (cachetools.data c))
                 (cachetools.remove key (cachetools.chain c))).
Proof.
  intros [Hm Hs Hd Hc Hk]. split; cbn; auto using NoDup_remove.
  - pose proof (length_remove_le key (cachetools.data c)). lia.
  - intros k. rewrite !keys_remove, Hk. reflexivity.
Qed.

(** A stored key all of whose links are live is one [in] finds. *)
Lemma live_contains c now key :
  well_formed c -> live_all c now -> key ∈ (cachetools.data c).*1 ->
  cachetools.contains c now key = true.
Proof.
  intros Hwf Hlive Hin. unfold cachetools.contains.
  apply (wf_keys c Hwf), assoc_is_Some in Hin as [e He]. rewrite He.
  apply bool_decide_eq_true. apply (Hlive key). apply assoc_Some_elem, He.
Qed.

Lemma make_room_unfold (fuel : nat) c now :
  cachetools.make_room fuel c now
  = if (cachetools.maxsize c <? cachetools.currsize c + 1)%nat then
      match fuel with
      | O => cachetools.popitem c now
      | S fuel' =>
          match cachetools.popitem c now with
          | (Return _, c') => cachetools.make_room fuel' c' now
          | (Raise e, c') => (Raise e, c')
          end
      end
    else (Return tt, c).
Proof. destruct fuel; reflexivity. Qed.

(** The loop that makes room, on a well-formed and expired cache: it
    removes at most the least recently used key; it raises only when that
    key is stored but not live, which cannot be when every link is live. *)
Lemma make_room_spec c now :
  well_formed c -> cachetools.expire c now = c ->
  exists r c',
    cachetools.make_room (cachetools.currsize c) c now = (r, c')
    /\ well_formed c'
    /\ cachetools.maxsize c' = cachetools.maxsize c
    /\ cachetools.ttl c' = cachetools.ttl c
    /\ (forall k e, (k, e) ∈ cachetools.chain c' -> (k, e) ∈ cachetools.chain c)
    /\ (forall k v, (k, v) ∈ cachetools.data c' -> (k, v) ∈ cachetools.data c)
    /\ (StronglySorted by_expiry (cachetools.chain c) ->
        StronglySorted by_expiry (cachetools.chain c'))
    /\ (r = Return tt -> (length (cachetools.data c') < cachetools.maxsize c')%nat)
    /\ (live_all c now -> r = Return tt).
Proof.
  intros Hwf Hexp. pose proof Hwf as [Hm Hs Hd Hc Hk].
  rewrite make_room_unfold.
  destruct (Nat.ltb_spec (cachetools.maxsize c) (cachetools.currsize c + 1)) as [Hfull|Hfree];
    unfold cachetools.currsize in *.
  2: { exists (Return tt), c. split_and!; auto. intros _. lia. }
  destruct (cachetools.data c) as [|[k0 v0] d] eqn:Ed; [cbn in *; lia|].
  assert (k0 ∈ (cachetools.data c).*1) as Hin0 by (rewrite Ed; left).
  cbn [length]. unfold cachetools.popitem. rewrite Hexp, Ed.
  destruct (cachetools.contains c now k0) eqn:Hlive0.
  - pose proof (remove_well_formed c k0 Hwf) as Hwf'. rewrite Ed in Hwf'.
    set (c' := cachetools.with_data c _ _) in *.
    assert (length (cachetools.data c') < cachetools.maxsize c)%nat as Hlt.
    { subst c'. cbn [cachetools.data cachetools.with_data].
      pose proof (length_remove_lt k0 (cachetools.data c) Hin0) as Hlt.
      pose proof (wf_size c Hwf) as Hs'. rewrite Ed in Hlt. lia. }
    exists (Return tt), c'. split.
    { rewrite make_room_unfold.
      destruct (Nat.ltb_spec (cachetools.maxsize c') (cachetools.currsize c' + 1));
        [unfold cachetools.currsize in *; subst c'; cbn in *; lia|reflexivity]. }
    split_and!; auto.
    + intros k e Hin. subst c'. cbn in Hin. apply elem_of_remove in Hin. tauto.
    + intros k v Hin. subst c'. cbn [cachetools.data cachetools.with_data] in Hin.
      apply elem_of_remove in Hin. tauto.
    + intros Hsorted. subst c'. cbn. apply StronglySorted_remove, Hsorted.
  - exists (Raise (KeyError k0)), c. rewrite Ed. split_and!; auto; try discriminate.
    intros Hall. rewrite (live_contains c now k0 Hwf Hall Hin0) in Hlive0. discriminate.
Qed.

(** [cache[key] = value] on a well-formed cache.  Whatever it ends with,
    the cache stays well formed and holds nothing it did not hold, except
    [key] with [value], expiring [ttl] after [now].  It returns whenever
    the links are in the order of their expiry, and then [key] is there. *)
Lemma setitem_spec c now key (value : V) :
  well_formed c ->
  exists r c',
    cachetools.setitem c now key value = (r, c')
    /\ well_formed c'
    /\ cachetools.maxsize c' = cachetools.maxsize c
    /\ cachetools.ttl c' = cachetools.ttl c
    /\ (forall k e, (k, e) ∈ cachetools.chain c' ->
          (k = key /\ e = now + cachetools.ttl c) \/ (k <> key /\ (k, e) ∈ cachetools.chain c))
    /\ (forall k v, (k, v) ∈ cachetools.data c' ->
          (k = key /\ v = value) \/ (k <> key /\ (k, v) ∈ cachetools.data c))
    /\ (r = Return tt ->
        cachetools.assoc key (cachetools.chain c') = Some (now + cachetools.ttl c)
        /\ cachetools.assoc key (cachetools.data c') = Some value)
    /\ (StronglySorted by_expiry (cachetools.chain c) -> r = Return tt)
    /\ (StronglySorted by_expiry (cachetools.chain c) ->
        (forall k e, (k, e) ∈ cachetools.chain c -> e <= now + cachetools.ttl c) ->
        StronglySorted by_expiry (cachetools.chain c')).
Proof.
  intros Hwf.
  pose proof (expire_well_formed c now Hwf) as Hwf1.
  pose proof (expire_idempotent c now Hwf) as Hidem.
  pose proof (expire_maxsize c now) as [Hmax Httl].
  pose proof (expire_subset c now Hwf) as [Hsubc Hsubd].
  pose proof (expire_sorted c now Hwf) as Hsorted1.
  unfold cachetools.setitem.
  set (c1 := cachetools.expire c now) in *.
  destruct (Nat.ltb_spec (cachetools.maxsize c1) 1) as [Hbad|_];
    [pose proof (wf_maxsize c1 Hwf1); lia|].
  (* the cache [c2] in which the key is stored, if room was made *)
  assert (exists r c2,
             match cachetools.assoc key (cachetools.data c1) with
             | Some _ => (Return tt, c1)
             | None => cachetools.make_room (cachetools.currsize c1) c1 now
             end = (r, c2)
             /\ well_formed c2
             /\ cachetools.maxsize c2 = cachetools.maxsize c
             /\ cachetools.ttl c2 = cachetools.ttl c
             /\ (forall k e, (k, e) ∈ cachetools.chain c2 -> (k, e) ∈ cachetools.chain c)
             /\ (forall k v, (k, v) ∈ cachetools.data c2 -> (k, v) ∈ cachetools.data c)
             /\ (StronglySorted by_expiry (cachetools.chain c) ->
                 StronglySorted by_expiry (cachetools.chain c2) /\ r = Return tt)
             /\ (r = Return tt ->
                 (length (cachetools.remove key (cachetools.data c2))
                  < cachetools.maxsize c2)%nat)
             /\ (r <> Return tt ->
                 (key ∉ (cachetools.chain c2).*1) /\ (key ∉ (cachetools.data c2).*1)))
    as (r & c2 & -> & Hwf2 & Hmax2 & Httl2 & Hc2 & Hd2 & Hs2 & Hlt & Hraise).
  { destruct (cachetools.assoc key (cachetools.data c1)) as [v0|] eqn:Ek.
    - exists (Return tt), c1. split_and!; auto.
      + intros Hs. split; [apply Hsorted1, Hs|reflexivity].
      + intros _.
        assert (key ∈ (cachetools.data c1).*1) as Hin by (apply assoc_is_Some; eauto).
        pose proof (length_remove_lt key _ Hin). pose proof (wf_size c1 Hwf1). lia.
    - destruct (make_room_spec c1 now Hwf1 Hidem)
        as (r & c2 & E & Hwf2 & Hm2 & Ht2 & Hc2 & Hd2 & Hs2 & Hlt & Hret).
      exists r, c2. split_and!; auto; try congruence.
      + intros Hs. destruct (Hsorted1 Hs) as [Hs1 Hlive1]. auto.
      + intros Hr. specialize (Hlt Hr).
        pose proof (length_remove_le key (cachetools.data c2)). lia.
      + intros _. apply assoc_None in Ek.
        assert (key ∉ (cachetools.data c2).*1) as Hnd.
        { intros Hin. apply Ek. apply list_elem_of_fmap in Hin as [[k v] [Heq Hin]].
          cbn in Heq. subst k. apply Hd2 in Hin.
          apply (list_elem_of_fmap_2 fst) in Hin. exact Hin. }
        split; [|exact Hnd]. rewrite (wf_keys c2 Hwf2). exact Hnd. }
  pose proof Hwf2 as [Hm Hs Hd Hc Hk].
  destruct r as [[]|e].
  - (* stored *)
    specialize (Hlt eq_refl).
    eexists _, _. split; [reflexivity|]. cbn.
    split_and!; auto.
    + split; cbn; auto using NoDup_remove_snoc.
      * rewrite length_app. cbn. lia.
      * intros k. rewrite !keys_remove_snoc, Hk. reflexivity.
    + intros k e0. rewrite elem_of_app, elem_of_remove, list_elem_of_singleton.
      intros [[Hne Hin]|[= -> ->]]; [right; auto|left; split; [reflexivity|congruence]].
    + intros k v. rewrite elem_of_app, elem_of_remove, list_elem_of_singleton.
      intros [[Hne Hin]|[= -> ->]]; [right; auto|left; auto].
    + intros _. split.
      * rewrite assoc_app, assoc_remove_eq. cbn.
        destruct (decide (key = key)); [congruence|contradiction].
      * rewrite assoc_app, assoc_remove_eq. cbn.
        destruct (decide (key = key)); [reflexivity|contradiction].
    + intros Hsorted Hbound. destruct (Hs2 Hsorted) as [Hsorted2 _].
      apply StronglySorted_app_2.
      * intros [k1 e1] [k2 e2] Hin1 Hin2. apply list_elem_of_singleton in Hin2.
        injection Hin2 as -> ->. apply elem_of_remove in Hin1 as [_ Hin1].
        unfold by_expiry. cbn. rewrite Httl2. eauto.
      * apply StronglySorted_remove, Hsorted2.
      * repeat constructor.
  - (* not stored: the key was new and is still absent *)
    destruct Hraise as [Hnc Hnd]; [discriminate|].
    exists (Raise e), c2. split; [reflexivity|]. split_and!; auto.
    + intros k e0 Hin. right. split; [|auto]. intros ->.
      apply Hnc. apply (list_elem_of_fmap_2 fst) in Hin. exact Hin.
    + intros k v Hin. right. split; [|auto]. intros ->.
      apply Hnd. apply (list_elem_of_fmap_2 fst) in Hin. exact Hin.
    + discriminate.
    + intros Hsorted. destruct (Hs2 Hsorted) as [_ Hr]. discriminate.
    + intros Hsorted _. apply Hs2, Hsorted.
Qed.

(** [cache[key]] keeps the shape and the links, and invents no value. *)
Lemma getitem_spec c now key :
  well_formed c ->
  well_formed (snd (cachetools.getitem c now key))
  /\ cachetools.chain (snd (cachetools.getitem c now key)) = cachetools.chain c
  /\ cachetools.maxsize (snd (cachetools.getitem c now key)) = cachetools.maxsize c
  /\ cachetools.ttl (snd (cachetools.getitem c now key)) = cachetools.ttl c
  /\ (forall k v, (k, v) ∈ cachetools.data (snd (cachetools.getitem c now key)) ->
        (k, v) ∈ cachetools.data c).
Proof.
  intros Hwf. pose proof Hwf as [Hm Hs Hd Hc Hk].
  unfold cachetools.getitem.
  destruct (cachetools.assoc key (cachetools.chain c)) as [expires|].
  2: { destruct (cachetools.assoc key (cachetools.data c)); cbn; auto. }
  assert (well_formed (cachetools.with_data c
                         (cachetools.move_to_end key (cachetools.data c))
                         (cachetools.chain c))
          /\ forall k v, (k, v) ∈ cachetools.move_to_end key (cachetools.data c) ->
                         (k, v) ∈ cachetools.data c) as [Hwf' Hsub].
  { unfold cachetools.move_to_end.
    destruct (cachetools.assoc key (cachetools.data c)) as [v0|] eqn:Ek.
    - assert (key ∈ (cachetools.data c).*1) as Hin by (apply assoc_is_Some; eauto).
      pose proof (length_remove_lt key _ Hin). split.
      + split; cbn; auto using NoDup_remove_snoc.
        * rewrite length_app. cbn. lia.
        * intros k. rewrite keys_remove_snoc, Hk.
          split; [auto|]. intros [->|]; auto.
      + intros k v. rewrite elem_of_app, elem_of_remove, list_elem_of_singleton.
        intros [[_ ?]|[= -> ->]]; [assumption|]. apply assoc_Some_elem, Ek.
    - split; [|auto]. destruct c; exact Hwf. }
  destruct (bool_decide (now < expires));
    [destruct (cachetools.assoc key (cachetools.data c))|]; cbn; auto.
Qed.

(** A key that [in] finds is one [cache[key]] returns. *)
Lemma contains_getitem c now key :
  well_formed c ->
  cachetools.contains c now key = true ->
  exists expires value,
    cachetools.assoc key (cachetools.chain c) = Some expires
    /\ now < expires
    /\ cachetools.assoc key (cachetools.data c) = Some value
    /\ fst (cachetools.getitem c now key) = Return value.
Proof.
  intros Hwf. unfold cachetools.contains, cachetools.getitem.
  destruct (cachetools.assoc key (cachetools.chain c)) as [expires|] eqn:Ec; [|discriminate].
  intros Hlive. rewrite Hlive.
  assert (is_Some (cachetools.assoc key (cachetools.data c))) as [value Ed].
  { apply assoc_is_Some, (wf_keys c Hwf), assoc_is_Some. eauto. }
  rewrite Ed. exists expires, value. split_and!; auto.
  apply bool_decide_eq_true in Hlive. exact Hlive.
Qed.

End CacheOperations.

(** ** The cache of [main.py] over any history *)

Section CacheInvariant.
Context {V : Type}.

Lemma run_invariant (maxsize : nat) (ttl : Z) (history : list (@Op V)) :
  (1 <= maxsize)%nat ->
  history_invariant maxsize ttl history (run history (cachetools.empty maxsize ttl)).
Proof.
  intros Hmax. induction history as [|op earlier IH]; cbn [run].
  { split; cbn; try reflexivity.
    - split; cbn; auto using NoDup_nil_2. lia.
    - intros k e H. inversion H.
    - intros k v H. inversion H. }
  destruct IH as [Hwf Hm Ht Hc Hd].
  set (c := run earlier (cachetools.empty maxsize ttl)) in *.
  destruct op as [key now|key now|key value now]; cbn [step last_set].
  - split; assumption.
  - destruct (getitem_spec c now key Hwf) as (Hwf' & Hch & Hm' & Ht' & Hsub).
    split; try congruence.
    + rewrite Hch. exact Hc.
    + intros k v Hin. apply Hd, Hsub, Hin.
  - destruct (setitem_spec c now key value Hwf)
      as (r & c' & E & Hwf' & Hm' & Ht' & Hch & Hda & _).
    rewrite E. cbn [snd]. split; try congruence.
    + intros k e Hin. cbn [last_set].
      destruct (Hch k e Hin) as [[-> ->]|[Hne Hin']].
      * destruct (decide (key = key)); [|contradiction].
        exists value. rewrite Ht. f_equal. f_equal. lia.
      * destruct (decide (key = k)); [congruence|]. apply Hc, Hin'.
    + intros k v Hin. cbn [last_set].
      destruct (Hda k v Hin) as [[-> ->]|[Hne Hin']].
      * destruct (decide (key = key)); [|contradiction]. eauto.
      * destruct (decide (key = k)); [congruence|]. apply Hd, Hin'.
Qed.

End CacheInvariant.

(** C9. After any sequence of [in], [cache[key]] and [cache[key] = value]
    operations on the cache of [main.py], at any times, the cache holds at
    most 100 entries, each for a different address; and an address that
    [in] finds at a time [now] was last set less than 300 seconds before
    [now], and [cache[address]] returns the value it was last set to. *)
Theorem cache_bounded_and_fresh (history : list (@Op Info)) :
  let c := run history main.cache in
  (length (cachetools.data c) <= 100)%nat
  /\ NoDup (cachetools.data c).*1
  /\ forall (address : string) (now : Z),
       cachetools.contains c now address = true ->
       exists (stored : Z) (value : Info),
         last_set history address = Some (stored, value)
         /\ now - stored < 300
         /\ fst (cachetools.getitem c now address) = Return value.
Proof.
  cbv zeta. unfold main.cache.
  destruct (run_invariant 100 300 history) as [Hwf Hm Ht Hc Hd]; [lia|].
  split_and!.
  - pose proof (wf_size _ Hwf). lia.
  - apply (wf_data _ Hwf).
  - intros address now Hin.
    destruct (contains_getitem _ now address Hwf Hin) as (expires & value & Ec & Hlive & Ed & Eg).
    apply assoc_Some_elem in Ec. apply assoc_Some_elem in Ed.
    destruct (Hc _ _ Ec) as [v Hv]. destruct (Hd _ _ Ed) as [stored Hs].
    rewrite Hv in Hs. injection Hs as Hstored Hvalue. subst v.
    exists (expires - 300), value. split_and!; auto. lia.
Qed.

(** ** main.py: the history endpoint *)

Global Instance listed_before_total : Total database.listed_before.
Proof. intros r1 r2. unfold database.listed_before. lia. Qed.

Global Instance listed_before_transitive : Transitive database.listed_before.
Proof. intros r1 r2 r3. unfold database.listed_before. lia. Qed.

Lemma listed_before_newer_first (r1 r2 : models.TronAddressInfo) :
  database.listed_before r1 r2 -> database.newer_first r1 r2.
Proof. unfold database.listed_before, database.newer_first. lia. Qed.

Lemma StronglySorted_weaken {A : Type} (R R' : relation A) (l : list A) :
  (forall x y, R x y -> R' x y) -> StronglySorted R l -> StronglySorted R' l.
Proof.
  intros Himpl. induction 1 as [|x l Hl IH Hall]; constructor; [exact IH|].
  eapply Forall_impl; [exact Hall|]. intros y. apply Himpl.
Qed.

(** The ordered table: the same rows, newest first. *)
Lemma order_by_timestamp_desc_perm (rows : list models.TronAddressInfo) :
  database.order_by_timestamp_desc rows ≡ₚ rows.
Proof. apply merge_sort_Permutation. Qed.

Lemma order_by_timestamp_desc_sorted (rows : list models.TronAddressInfo) :
  StronglySorted database.newer_first (database.order_by_timestamp_desc rows).
Proof.
  apply (StronglySorted_weaken database.listed_before); [apply listed_before_newer_first|].
  apply (StronglySorted_merge_sort database.listed_before).
Qed.


Lemma fits_spec (n : Z) : database.fits n = true <-> - 2 ^ 63 <= n < 2 ^ 63.
Proof. unfold database.fits. rewrite andb_true_iff, Z.leb_le, Z.ltb_lt. reflexivity. Qed.

(** What the body of [get_recent_requests] ends with, by the answers of
    its two queries. *)
Lemma get_recent_requests_body_eq (env : Env) (page page_size : Z) (w : World) :
  fst (main.get_recent_requests_body env page page_size w)
  = match db_fault env (tick w) with
    | Some e => Raise (HTTPException 500 ("Internal server error: " +:+ str e))
    | None =>
        match db_fault env (S (tick w)) with
        | Some e => Raise (HTTPException 500 ("Internal server error: " +:+ str e))
        | None =>
            if database.fits ((page - 1) * page_size) && database.fits page_size
            then Return {| main.total := Z.of_nat (length (store w));
                           main.page := page;
                           main.page_size := page_size;
                           main.data :=
                             database.limit page_size
                               (database.offset ((page - 1) * page_size)
                                  (database.order_by_timestamp_desc (store w))) |}
            else Raise (HTTPException 500
                          ("Internal server error: " +:+ str database.overflow))
        end
    end.
Proof.
  unfold main.get_recent_requests_body, try_except, bind, database.count,
    database.select_recent, database.round_trip.
  destruct (db_fault env (tick w)) as [e|]; [reflexivity|]. cbn [tick store].
  destruct (db_fault env (S (tick w))) as [e|]; [reflexivity|].
  destruct (database.fits ((page - 1) * page_size) && database.fits page_size); reflexivity.
Qed.

(** The body of [get_recent_requests] when the database answers both
    queries. *)
Lemma get_recent_requests_body_ok (env : Env) (page page_size : Z) (w : World) :
  db_fault env (tick w) = None ->
  db_fault env (S (tick w)) = None ->
  database.fits ((page - 1) * page_size) = true ->
  database.fits page_size = true ->
  exists w',
    main.get_recent_requests_body env page page_size w
    = (Return {| main.total := Z.of_nat (length (store w));
                 main.page := page;
                 main.page_size := page_size;
                 main.data :=
                   database.limit page_size
                     (database.offset ((page - 1) * page_size)
                        (database.order_by_timestamp_desc (store w))) |}, w')
    /\ store w' = store w /\ cache_state w' = cache_state w.
Proof.
  intros F1 F2 Ho Hl.
  unfold main.get_recent_requests_body, try_except, bind, database.count,
    database.select_recent, database.round_trip.
  rewrite F1. cbn [tick store]. rewrite F2, Ho, Hl. cbn.
  eexists. split_and!; reflexivity.
Qed.




(** C10. [GET /recent_requests] without [page] and [page_size] runs its
    body with [page = 1] and [page_size = 10], and an omitted one of the
    two takes its default; a supplied [page] below 1, or a supplied
    [page_size] below 1 or above 100, is refused before the body runs: the
    world is untouched and FastAPI answers 422. *)
Theorem recent_requests_parameters (env : Env) (w : World) :
  main.get_recent_requests env None None w = main.get_recent_requests_body env 1 10 w
  /\ (forall p : Z, 1 <= p ->
        main.get_recent_requests env (Some p) None w
        = main.get_recent_requests_body env p 10 w)
  /\ (forall ps : Z, 1 <= ps <= 100 ->
        main.get_recent_requests env None (Some ps) w
        = main.get_recent_requests_body env 1 ps w)
  /\ (forall (p : Z) (page_size : option Z), p < 1 ->
        exists e, main.get_recent_requests env (Some p) page_size w = (Raise e, w)
                  /\ main.respond (@Raise main.RecentRequests e) = (422, None))
  /\ (forall (page : option Z) (ps : Z), ps < 1 \/ 100 < ps ->
        exists e, main.get_recent_requests env page (Some ps) w = (Raise e, w)
                  /\ main.respond (@Raise main.RecentRequests e) = (422, None)).
Proof.
  unfold main.get_recent_requests, main.resolve, main.within. cbn.
  split_and!.
  - reflexivity.
  - intros p Hp. destruct (Z.leb_spec 1 p); [reflexivity|lia].
  - intros ps Hps. destruct (Z.leb_spec 1 ps); [|lia].
    destruct (Z.leb_spec ps 100); [reflexivity|lia].
  - intros p page_size Hp. destruct (Z.leb_spec 1 p); [lia|]. cbn.
    eexists. split; reflexivity.
  - intros page ps Hps.
    assert ((1 <=? ps) && (ps <=? 100) = false) as ->.
    { destruct (Z.leb_spec 1 ps); destruct (Z.leb_spec ps 100); cbn; auto; lia. }
    destruct page as [p|]; [destruct ((1 <=? p) && true)|];
      eexists; split; reflexivity.
Qed.

Lemma recent_requests_parameters_witness :
  main.get_recent_requests scenario.healthy (Some 2) None scenario.start
  = main.get_recent_requests_body scenario.healthy 2 10 scenario.start
  /\ (exists e,
        main.get_recent_requests scenario.healthy (Some 1) (Some 101) scenario.start
        = (Raise e, scenario.start)
        /\ main.respond (@Raise main.RecentRequests e) = (422, None)).
Proof.
  pose proof (recent_requests_parameters scenario.healthy scenario.start)
    as (_ & Hpage & _ & _ & Hsize).
  split; [apply Hpage; lia|apply Hsize; lia].
Defined.

(** ** main.py: the steps of the lookup handler *)

Section Steps.
Variable env : Env.

Lemma commit_eq (address : string) (info : Info) (w : World) :
  database.commit env address info w
  = match commit_fault env info (tick w) with
    | Some e => (Raise e, called env DbCommit w)
    | None => (Return tt, committed env address info w)
    end.
Proof.
  unfold database.commit, database.round_trip, commit_fault.
  destruct (db_fault env (tick w)); [reflexivity|].
  destruct (database.fits (bandwidth info) && database.fits (energy info)); reflexivity.
Qed.


Lemma commit_fault_db (info : Info) (n : nat) (e : Exc) :
  db_fault env n = Some e -> commit_fault env info n = Some e.
Proof. unfold commit_fault. intros ->. reflexivity. Qed.

Lemma refresh_eq (w : World) :
  database.refresh env w
  = match db_fault env (tick w) with
    | Some e => (Raise e, called env DbRefresh w)
    | None => (Return tt, called env DbRefresh w)
    end.
Proof.
  unfold database.refresh, database.round_trip.
  destruct (db_fault env (tick w)); reflexivity.
Qed.

(** Whatever the exception, the [except] clauses answer 500 and log. *)
Lemma except_eq (address : string) (e : Exc) (w : World) :
  exists detail msg,
    main.except address e w = (Raise (HTTPException 500 detail), logged ERROR msg w)
    /\ detail = (if main.is_network_error e then "Network error: " else "Internal server error: ")
                +:+ str e.
Proof.
  unfold main.except. destruct (main.is_network_error e); eexists _, _; split; reflexivity.
Qed.

(** The cache-or-fetch step, by its cases. *)
Lemma lookup_info_eq (address : string) (w : World) :
  main.lookup_info env address w
  = if cachetools.contains (cache_state w) (clock w) address then
      let w1 := logged INFO ("Cache hit for address: " +:+ address) w in
      let '(r, c) := cachetools.getitem (cache_state w) (clock w) address in
      (r, main.set_cache w1 c)
    else
      match tron_service.get_address_info env address w with
      | (Raise e, w1) => (Raise e, w1)
      | (Return info, w1) =>
          match cachetools.setitem (cache_state w1) (clock w1) address info with
          | (Return _, c) =>
              (Return info,
               logged INFO ("Cache updated for address: " +:+ address) (main.set_cache w1 c))
          | (Raise e, c) => (Raise e, main.set_cache w1 c)
          end
      end.
Proof.
  unfold main.lookup_info, bind, main.cache_contains.
  destruct (cachetools.contains (cache_state w) (clock w) address).
  - unfold main.cache_getitem, log, emit. cbn.
    destruct (cachetools.getitem (cache_state w) (clock w) address). reflexivity.
  - destruct (tron_service.get_address_info env address w) as [[info|e] w1]; [|reflexivity].
    unfold main.cache_setitem.
    destruct (cachetools.setitem (cache_state w1) (clock w1) address info) as [[[]|e] c];
      reflexivity.
Qed.

(** The cache-or-fetch step never touches the table or the database, and
    keeps the cache one of [main.py]'s on a monotonic clock. *)
Lemma lookup_info_frame (address : string) (w w' : World) (r : Outcome Info) :
  cache_ok w ->
  main.lookup_info env address w = (r, w') ->
  store w' = store w /\ db_calls w' = db_calls w /\ cache_ok w'
  /\ clock w <= clock w'.
Proof.
  intros (Hwf & Hmax & Httl & Hsorted & Hbound). rewrite lookup_info_eq.
  destruct (cachetools.contains (cache_state w) (clock w) address).
  - cbv zeta.
    pose proof (getitem_spec (cache_state w) (clock w) address Hwf) as (H1 & H2 & H3 & H4 & _).
    destruct (cachetools.getitem (cache_state w) (clock w) address) as [r0 c].
    intros [= <- <-]. cbn in *. unfold cache_ok. cbn.
    rewrite H2, H3, H4. split_and!; auto; lia.
  - destruct (tron_service.get_address_info env address w) as [[info|e] w1] eqn:G;
      apply get_address_info_frame in G; destruct G as [Gc Gs Gd _ _ _ Gk Gt].
    + assert (well_formed (cache_state w1)) as Hwf1 by (rewrite Gc; exact Hwf).
      destruct (setitem_spec (cache_state w1) (clock w1) address info Hwf1)
        as (r1 & c' & -> & Hwf' & Hm' & Ht' & Hch & _ & _ & _ & Hs').
      rewrite Gc in Hch, Hs', Hm', Ht'. rewrite Httl in Hch, Hs'.
      assert (cache_ok (main.set_cache w1 c')) as Hok.
      { unfold cache_ok. cbn. split_and!; auto; try congruence.
        - apply Hs'; [exact Hsorted|]. intros k e Hin. specialize (Hbound k e Hin). lia.
        - intros k e Hin. destruct (Hch k e Hin) as [[_ ->]|[_ Hin']]; [lia|].
          specialize (Hbound k e Hin'). lia. }
      destruct r1 as [[]|e1]; intros [= <- <-]; cbn; split_and!; auto.
    + intros [= <- <-]. unfold cache_ok. rewrite Gc.
      split_and!; auto. intros k e' Hin. specialize (Hbound k e' Hin). lia.
Qed.

End Steps.

Section Persistence.
Variable env : Env.

(** The cache-or-fetch step leaves the table alone, whatever the cache. *)
Lemma lookup_info_store (address : string) (w w' : World) (r : Outcome Info) :
  main.lookup_info env address w = (r, w') ->
  store w' = store w /\ (tick w <= tick w')%nat.
Proof.
  rewrite lookup_info_eq.
  destruct (cachetools.contains (cache_state w) (clock w) address).
  - cbv zeta. destruct (cachetools.getitem (cache_state w) (clock w) address).
    intros [= <- <-]. cbn. auto.
  - destruct (tron_service.get_address_info env address w) as [[info|e] w1] eqn:G;
      apply get_address_info_frame in G; destruct G as [_ Gs _ _ _ _ _ Gt].
    + destruct (cachetools.setitem (cache_state w1) (clock w1) address info) as [[[]|e] c];
        intros [= <- <-]; cbn; auto.
    + intros [= <- <-]. auto.
Qed.

End Persistence.

(** ** The claims about the lookup handler *)

(** C5, as the code has it, stage by stage.  An exception of the
    validator, the 400 of a refused address, and the 500 answered for an
    exception of the cache-or-fetch step or of the commit all leave the
    table as it was.  Once the commit has returned, exactly one row is
    inserted, for the address and with the triple of the fetch (the balance
    as the float the column holds); the lookup then answers with that
    triple, or, when the refresh raises, answers 500 while the row stays. *)
Theorem lookup_persists_or_fails
    (env : Env) (request : main.AddressRequest) (w : World) :
  let address := main.address request in
  let failed (e : Exc) : Outcome main.AddressInfo :=
    Raise (HTTPException 500
             ((if main.is_network_error e then "Network error: "
               else "Internal server error: ") +:+ str e)) in
  let '(r, w') := main.get_address_info_endpoint env request w in
  match tron_service.validate_tron_address env address w with
  | (Raise e, _) => r = Raise e /\ store w' = store w
  | (Return false, _) =>
      r = Raise (HTTPException 400 "Invalid Tron address") /\ store w' = store w
  | (Return true, w1) =>
      match main.lookup_info env address w1 with
      | (Raise e, _) => r = failed e /\ store w' = store w
      | (Return info, w2) =>
          match database.commit env address info w2 with
          | (Raise e, _) => r = failed e /\ store w' = store w
          | (Return _, w3) =>
              store w'
              = store w
                ++ [ {| models.id := database.next_id (store w);
                        models.address := address;
                        models.bandwidth := bandwidth info;
                        models.energy := energy info;
                        models.balance := models.to_float (balance info);
                        models.timestamp := utcnow env (tick w2) |} ]
              /\ match database.refresh env w3 with
                 | (Raise e, _) => r = failed e
                 | (Return _, _) =>
                     r = Return {| main.info_address := address;
                                   main.info_bandwidth := bandwidth info;
                                   main.info_energy := energy info;
                                   main.info_balance := balance info |}
                 end
          end
      end
  end.
Proof.
  cbv zeta. rewrite get_address_info_endpoint_eq. cbv zeta.
  destruct (tron_service.validate_tron_address env (main.address request) w)
    as [v w1] eqn:V.
  apply validate_tron_address_frame in V. destruct V as [_ Vs _ _ _ _ _ Vt].
  destruct v as [[]|e]; [|split; [reflexivity|assumption]..].
  destruct (main.lookup_info env (main.address request) w1) as [o w2] eqn:L.
  apply lookup_info_store in L as [Ls Lt].
  assert (store w2 = store w) as Hs by congruence.
  destruct o as [info|e].
  2: { unfold main.except. destruct (main.is_network_error e); cbn; auto. }
  rewrite commit_eq.
  destruct (commit_fault env info (tick w2)) as [e|] eqn:F1.
  { unfold main.except. destruct (main.is_network_error e); cbn; auto. }
  rewrite refresh_eq. cbn [tick committed].
  destruct (db_fault env (S (tick w2))) as [e|] eqn:F2.
  - unfold main.except. destruct (main.is_network_error e); cbn;
      (split; [unfold inserted_row; rewrite Hs; reflexivity|reflexivity]).
  - cbn. split; [unfold inserted_row; rewrite Hs; reflexivity|reflexivity].
Qed.

(** C5 as the spec states it fails: with a database that commits and then
    loses its connection, the lookup answers 500 and the row is in the
    table. *)
Lemma refresh_failure_leaves_the_record :
  fst (main.get_address_info_endpoint
         scenario.refresh_fails scenario.request scenario.start)
  = Raise (HTTPException 500 "Internal server error: connection lost")
  /\ length (store (snd (main.get_address_info_endpoint
                           scenario.refresh_fails scenario.request scenario.start)))
     = 1%nat
  /\ store (snd (main.get_address_info_endpoint
                   scenario.refresh_fails scenario.request scenario.start))
     <> store scenario.start.
Proof.
  split_and!; [vm_compute; reflexivity..|].
  intros H. apply (f_equal length) in H. vm_compute in H. discriminate.
Qed.

Section Hit.
Variable env : Env.



End Hit.

Section Finish.
Variable env : Env.

Lemma get_address_info_endpoint_finish (request : main.AddressRequest) (w : World) :
  main.get_address_info_endpoint env request w
  = match tron_service.validate_tron_address env (main.address request) w with
    | (Raise e, w1) => (Raise e, w1)
    | (Return false, w1) => (Raise (HTTPException 400 "Invalid Tron address"), w1)
    | (Return true, w1) =>
        match main.lookup_info env (main.address request) w1 with
        | (Raise e, w2) => main.except (main.address request) e w2
        | (Return info, w2) => finish env (main.address request) info w2
        end
    end.
Proof. rewrite get_address_info_endpoint_eq. reflexivity. Qed.

(** Persisting and answering touch neither the cache nor the ledger, and
    answer with the triple when the database does its part. *)
Lemma finish_frame (address : string) (info : Info) (w : World) :
  cache_state (snd (finish env address info w)) = cache_state w
  /\ resource_calls (snd (finish env address info w)) = resource_calls w
  /\ balance_calls (snd (finish env address info w)) = balance_calls w
  /\ (commit_fault env info (tick w) = None -> db_fault env (S (tick w)) = None ->
      fst (finish env address info w)
      = Return {| main.info_address := address;
                  main.info_bandwidth := bandwidth info;
                  main.info_energy := energy info;
                  main.info_balance := balance info |}).
Proof.
  unfold finish. rewrite commit_eq.
  destruct (commit_fault env info (tick w)) as [e|] eqn:F1.
  { destruct (except_eq address e (called env DbCommit w)) as (d & m & -> & _).
    cbn. split_and!; try reflexivity. discriminate. }
  rewrite refresh_eq. cbn [tick committed].
  destruct (db_fault env (S (tick w))) as [e|] eqn:F2.
  - destruct (except_eq address e (called env DbRefresh (committed env address info w)))
      as (d & m & -> & _).
    cbn. split_and!; try reflexivity. discriminate.
  - cbn. split_and!; reflexivity.
Qed.

End Finish.





Lemma cache_ok_start : cache_ok scenario.start.
Proof.
  split_and!; try reflexivity.
  - split; cbn; try lia; try apply NoDup_nil_2. reflexivity.
  - constructor.
  - intros k e Hin. inversion Hin.
Qed.

(** ** The retry policy at work *)

Lemma sleeps_pause (name : string) (n : nat) (w : World) :
  sleeps (trace (pause name n w)) = tenacity.wait_exponential 1 1 10 n :: sleeps (trace w).
Proof. reflexivity. Qed.

Lemma account_calls_pause (name : string) (n : nat) (w : World) :
  account_calls (pause name n w) = account_calls w.
Proof. reflexivity. Qed.

Section Attempts.
Variable env : Env.

(** One attempt of the validator that the ledger answers with an
    exception other than [AddressNotFound]. *)
Lemma validate_tron_address_body_raises (address : string) (w : World) (e : Exc) :
  get_account env (tick w) address = Raise e ->
  tenacity.retry_if_exception_type e = true ->
  tron_service.validate_tron_address_body env address w
  = (Raise e, called env (Call_get_account address) w).
Proof.
  intros H R. rewrite validate_tron_address_body_eq, H.
  destruct e; try discriminate; reflexivity.
Qed.

End Attempts.

(** The delays of the policy: 1 after the first attempt, then twice the
    delay before, never above 10. *)
Theorem backoff_schedule (n : nat) :
  tenacity.wait_exponential 1 1 10 1 = 1
  /\ tenacity.wait_exponential 1 1 10 (S (S n))
     = Z.min (2 * tenacity.wait_exponential 1 1 10 (S n)) 10
  /\ 1 <= tenacity.wait_exponential 1 1 10 n <= 10.
Proof.
  split_and!.
  - reflexivity.
  - apply wait_exponential_doubles. lia.
  - apply wait_exponential_bounds.
  - apply wait_exponential_bounds.
Qed.

(** One call of the validator looks the account up at least once and at
    most three times; one call of [get_address_info] reads the resource at
    most three times and the balance at most three times. *)
Theorem attempts_are_bounded (env : Env) (address : string) (w : World) :
  (account_calls w
   < account_calls (snd (tron_service.validate_tron_address env address w))
   <= account_calls w + 3)%nat
  /\ (resource_calls (snd (tron_service.get_address_info env address w))
      <= resource_calls w + 3)%nat
  /\ (balance_calls (snd (tron_service.get_address_info env address w))
      <= balance_calls w + 3)%nat.
Proof.
  destruct (tron_service.validate_tron_address env address w) as [r w'] eqn:V.
  apply validate_tron_address_frame in V. destruct V.
  destruct (tron_service.get_address_info env address w) as [o w''] eqn:G.
  apply get_address_info_frame in G. destruct G.
  cbn. lia.
Qed.

(** An account lookup that fails with a network error twice and then
    answers: the validator returns true after exactly three lookups,
    having slept 1 and then 2 seconds. *)
Theorem third_attempt_succeeds
    (env : Env) (address : string) (w : World) (e1 e2 : Exc) :
  get_account env (tick w) address = Raise e1 ->
  get_account env (S (tick w)) address = Raise e2 ->
  get_account env (S (S (tick w))) address = Return tt ->
  tenacity.retry_if_exception_type e1 = true ->
  tenacity.retry_if_exception_type e2 = true ->
  fst (tron_service.validate_tron_address env address w) = Return true
  /\ account_calls (snd (tron_service.validate_tron_address env address w))
     = (account_calls w + 3)%nat
  /\ sleeps (trace (snd (tron_service.validate_tron_address env address w)))
     = 2 :: 1 :: sleeps (trace w).
Proof.
  intros H1 H2 H3 R1 R2.
  rewrite validate_tron_address_decorated.
  set (w1 := called env (Call_get_account address) w).
  set (w2 := called env (Call_get_account address) (pause "validate_tron_address" 1 w1)).
  set (w3 := called env (Call_get_account address) (pause "validate_tron_address" 2 w2)).
  rewrite (decorated_third_time _ _ w w1 w2 w3 e1 e2 (Return true)); try assumption.
  2: { apply validate_tron_address_body_raises; assumption. }
  2: { apply validate_tron_address_body_raises; assumption. }
  2: { rewrite validate_tron_address_body_eq. cbn [tick pause called w2 w1].
       rewrite H3. reflexivity. }
  cbn [fst snd exhausted]. split_and!; [reflexivity| |].
  - unfold account_calls. cbn. lia.
  - reflexivity.
Qed.

Lemma third_attempt_succeeds_witness :
  fst (tron_service.validate_tron_address scenario.flaky scenario.address scenario.start)
  = Return true
  /\ account_calls (snd (tron_service.validate_tron_address
                           scenario.flaky scenario.address scenario.start))
     = 3%nat
  /\ sleeps (trace (snd (tron_service.validate_tron_address
                           scenario.flaky scenario.address scenario.start)))
     = [2; 1].
Proof.
  apply (third_attempt_succeeds scenario.flaky scenario.address scenario.start
           scenario.network_error scenario.network_error); reflexivity.
Defined.

(** An exception of the ledger that is not of the network class ends the
    call at the first attempt: [AddressNotFound] makes the validator
    return false, anything else is raised as it is, and nothing is slept. *)
Theorem application_errors_are_not_retried
    (env : Env) (address : string) (w : World) (e : Exc) :
  get_account env (tick w) address = Raise e ->
  tenacity.retry_if_exception_type e = false ->
  fst (tron_service.validate_tron_address env address w)
  = match e with AddressNotFound _ => Return false | _ => Raise e end
  /\ account_calls (snd (tron_service.validate_tron_address env address w))
     = (account_calls w + 1)%nat
  /\ sleeps (trace (snd (tron_service.validate_tron_address env address w)))
     = sleeps (trace w).
Proof.
  intros H R.
  rewrite validate_tron_address_decorated, decorated_unfold.
  rewrite validate_tron_address_body_eq, H.
  destruct e; try discriminate R; cbn; unfold account_calls; cbn;
    split_and!; first [reflexivity | lia].
Qed.

Lemma application_errors_are_not_retried_witness :
  fst (tron_service.validate_tron_address
         scenario.unknown_address scenario.address scenario.start)
  = Return false
  /\ account_calls (snd (tron_service.validate_tron_address
                           scenario.unknown_address scenario.address scenario.start))
     = 1%nat
  /\ sleeps (trace (snd (tron_service.validate_tron_address
                           scenario.unknown_address scenario.address scenario.start)))
     = [].
Proof.
  apply (application_errors_are_not_retried scenario.unknown_address scenario.address
           scenario.start (AddressNotFound "account not found on-chain")); reflexivity.
Defined.

(** Neither decorated function ever raises a network-class exception: the
    first [except] clause of the lookup handler cannot be reached from
    them. *)
Theorem network_errors_never_leave_the_decorator
    (env : Env) (address : string) (w : World) :
  (forall e w', tron_service.validate_tron_address env address w = (Raise e, w') ->
                main.is_network_error e = false)
  /\ (forall e w', tron_service.get_address_info env address w = (Raise e, w') ->
                   main.is_network_error e = false).
Proof.
  split; intros e w' H.
  - rewrite validate_tron_address_decorated in H.
    apply decorated_never_network in H. destruct e; try discriminate; reflexivity.
  - rewrite get_address_info_decorated in H.
    apply decorated_never_network in H. destruct e; try discriminate; reflexivity.
Qed.

(** C2, where the code departs from it.  An account lookup that fails with
    a network error at each of the three attempts: the validator gives up
    after exactly three lookups and the delays 1 and 2, and what it raises
    is a [RetryError] around the last network error, which is not itself
    of the network class. *)
Theorem exhausted_retries_raise_retry_error
    (env : Env) (address : string) (w : World) (e1 e2 e3 : Exc) :
  get_account env (tick w) address = Raise e1 ->
  get_account env (S (tick w)) address = Raise e2 ->
  get_account env (S (S (tick w))) address = Raise e3 ->
  tenacity.retry_if_exception_type e1 = true ->
  tenacity.retry_if_exception_type e2 = true ->
  tenacity.retry_if_exception_type e3 = true ->
  fst (tron_service.validate_tron_address env address w) = Raise (RetryError e3)
  /\ account_calls (snd (tron_service.validate_tron_address env address w))
     = (account_calls w + 3)%nat
  /\ sleeps (trace (snd (tron_service.validate_tron_address env address w)))
     = 2 :: 1 :: sleeps (trace w)
  /\ main.is_network_error (RetryError e3) = false
  /\ @Raise bool (RetryError e3) <> Raise e3.
Proof.
  intros H1 H2 H3 R1 R2 R3.
  rewrite validate_tron_address_decorated.
  set (w1 := called env (Call_get_account address) w).
  set (w2 := called env (Call_get_account address) (pause "validate_tron_address" 1 w1)).
  set (w3 := called env (Call_get_account address) (pause "validate_tron_address" 2 w2)).
  rewrite (decorated_third_time _ _ w w1 w2 w3 e1 e2 (Raise e3)); try assumption.
  2: { apply validate_tron_address_body_raises; assumption. }
  2: { apply validate_tron_address_body_raises; assumption. }
  2: { apply validate_tron_address_body_raises; assumption. }
  cbn [fst snd exhausted]. rewrite R3. split_and!; try reflexivity.
  - unfold account_calls. cbn. lia.
  - intros [= H]. clear -H. induction e3; congruence.
Qed.

Lemma exhausted_retries_raise_retry_error_witness :
  fst (tron_service.validate_tron_address
         scenario.unreachable scenario.address scenario.start)
  = Raise (RetryError (ConnectionError "Network error"))
  /\ account_calls (snd (tron_service.validate_tron_address
                           scenario.unreachable scenario.address scenario.start))
     = 3%nat
  /\ sleeps (trace (snd (tron_service.validate_tron_address
                           scenario.unreachable scenario.address scenario.start)))
     = [2; 1]
  /\ main.is_network_error (RetryError (ConnectionError "Network error")) = false
  /\ @Raise bool (RetryError (ConnectionError "Network error"))
     <> Raise (ConnectionError "Network error").
Proof.
  apply (exhausted_retries_raise_retry_error scenario.unreachable scenario.address
           scenario.start scenario.network_error scenario.network_error
           scenario.network_error); reflexivity.
Defined.

(** C6, where the code departs from it.  When the retries of the fetch are
    exhausted, what reaches the handler is a [RetryError], which the clause
    for network errors does not match: the answer is 500 with the text of
    the [RetryError] as detail, and that text names the class of the
    network error, not its message.  When the retries of the validator are
    exhausted, its [RetryError] is raised outside the [try] and leaves the
    handler uncaught: the answer is a 500 without any detail. *)
Theorem network_error_message_is_lost
    (env : Env) (request : main.AddressRequest) (w : World) :
  (forall (e : Exc) (w1 w2 : World),
      tron_service.validate_tron_address env (main.address request) w = (Return true, w1) ->
      cachetools.contains (cache_state w1) (clock w1) (main.address request) = false ->
      tron_service.get_address_info env (main.address request) w1
      = (Raise (RetryError e), w2) ->
      main.respond (fst (main.get_address_info_endpoint env request w))
      = (500,
         Some ("Internal server error: RetryError[<Future at 0x0 state=finished raised "
               +:+ class_name e +:+ ">]")))
  /\ (forall (e : Exc) (w1 : World),
        tron_service.validate_tron_address env (main.address request) w
        = (Raise (RetryError e), w1) ->
        main.get_address_info_endpoint env request w = (Raise (RetryError e), w1)
        /\ main.respond (fst (main.get_address_info_endpoint env request w)) = (500, None)).
Proof.
  split.
  - intros e w1 w2 V Hmiss G.
    rewrite get_address_info_endpoint_finish, V, lookup_info_eq, Hmiss, G.
    reflexivity.
  - intros e w1 V.
    rewrite get_address_info_endpoint_finish, V. split; reflexivity.
Qed.

Lemma network_error_message_is_lost_witness :
  main.respond
    (fst (main.get_address_info_endpoint
            scenario.fetch_unreachable scenario.request scenario.start))
  = (500,
     Some "Internal server error: RetryError[<Future at 0x0 state=finished raised ConnectionError>]")
  /\ str scenario.network_error = "Network error"
  /\ String.index 0 (str scenario.network_error)
       "Internal server error: RetryError[<Future at 0x0 state=finished raised ConnectionError>]"
     = None
  /\ main.respond
       (fst (main.get_address_info_endpoint
               scenario.unreachable scenario.request scenario.start))
     = (500, None).
Proof.
  split_and!.
  - apply (proj1 (network_error_message_is_lost
                    scenario.fetch_unreachable scenario.request scenario.start)
             scenario.network_error
             (snd (tron_service.validate_tron_address
                     scenario.fetch_unreachable scenario.address scenario.start))
             (snd (tron_service.get_address_info
                     scenario.fetch_unreachable scenario.address
                     (snd (tron_service.validate_tron_address
                             scenario.fetch_unreachable scenario.address scenario.start)))));
      vm_compute; reflexivity.
  - reflexivity.
  - vm_compute. reflexivity.
  - apply (proj2 (network_error_message_is_lost
                    scenario.unreachable scenario.request scenario.start)
             scenario.network_error
             (snd (tron_service.validate_tron_address
                     scenario.unreachable scenario.address scenario.start))).
    vm_compute. reflexivity.
Defined.

(** ** The cache invariant is kept by every lookup *)

Lemma cache_ok_later (w w' : World) :
  cache_ok w -> cache_state w' = cache_state w -> clock w <= clock w' -> cache_ok w'.
Proof.
  intros (Hwf & Hmax & Httl & Hsorted & Hbound) Hc Hclock.
  unfold cache_ok. rewrite Hc. split_and!; auto.
  intros k e Hin. specialize (Hbound k e Hin). lia.
Qed.

Lemma finish_clock (env : Env) (address : string) (info : Info) (w : World) :
  clock w <= clock (snd (finish env address info w)).
Proof.
  unfold finish. rewrite commit_eq.
  destruct (commit_fault env info (tick w)) as [e|].
  { destruct (except_eq address e (called env DbCommit w)) as (d & m & -> & _). cbn. lia. }
  rewrite refresh_eq. cbn [tick committed].
  destruct (db_fault env (S (tick w))) as [e|].
  - destruct (except_eq address e (called env DbRefresh (committed env address info w)))
      as (d & m & -> & _).
    cbn. lia.
  - cbn. lia.
Qed.

(** Every lookup, whatever it ends with, leaves the cache in a state of
    [main.py]'s cache on a monotonic clock, and the clock no earlier. *)
Theorem lookup_keeps_the_cache_invariant
    (env : Env) (request : main.AddressRequest) (w : World) :
  cache_ok w ->
  cache_ok (snd (main.get_address_info_endpoint env request w))
  /\ clock w <= clock (snd (main.get_address_info_endpoint env request w)).
Proof.
  intros Hok. rewrite get_address_info_endpoint_finish.
  destruct (tron_service.validate_tron_address env (main.address request) w)
    as [v w1] eqn:V.
  apply validate_tron_address_frame in V. destruct V as [Vc _ _ _ _ _ Vk _].
  pose proof (cache_ok_later w w1 Hok Vc Vk) as Hok1.
  destruct v as [[]|e]; [|split; assumption..].
  destruct (main.lookup_info env (main.address request) w1) as [o w2] eqn:L.
  apply (lookup_info_frame env _ _ _ _ Hok1) in L as (_ & _ & Hok2 & Lk).
  destruct o as [info|e].
  - pose proof (finish_frame env (main.address request) info w2) as (Fc & _).
    pose proof (finish_clock env (main.address request) info w2) as Fk.
    split; [exact (cache_ok_later _ _ Hok2 Fc Fk)|lia].
  - destruct (except_eq (main.address request) e w2) as (d & m & -> & _).
    cbn. split; [|lia]. apply (cache_ok_later w2); [assumption|reflexivity|cbn; lia].
Qed.

Lemma lookup_keeps_the_cache_invariant_witness :
  cache_ok (snd (main.get_address_info_endpoint
                   scenario.staked scenario.request scenario.start)).
Proof.
  apply (lookup_keeps_the_cache_invariant scenario.staked scenario.request scenario.start).
  apply cache_ok_start.
Defined.

(** * Further properties of [tron_service.py] *)

Lemma slept_pause (name : string) (n : nat) (w : World) :
  slept (pause name n w) = tenacity.wait_exponential 1 1 10 n + slept w.
Proof. reflexivity. Qed.

Section Backoff.
Variable env : Env.

(** One attempt of the validator does not sleep. *)
Lemma validate_tron_address_body_slept (address : string) (w w' : World) (o : Outcome bool) :
  tron_service.validate_tron_address_body env address w = (o, w') -> slept w' = slept w.
Proof.
  rewrite validate_tron_address_body_eq.
  destruct (get_account env (tick w) address) as [[]|[]]; intros [= <- <-]; reflexivity.
Qed.

Lemma validate_tron_address_slept (address : string) (w w' : World) (o : Outcome bool) :
  tron_service.validate_tron_address env address w = (o, w') ->
  slept w <= slept w' <= slept w + 3.
Proof.
  rewrite validate_tron_address_decorated, decorated_unfold.
  destruct (tron_service.validate_tron_address_body env address w) as [o1 w1] eqn:E1.
  apply validate_tron_address_body_slept in E1.
  destruct (final o1); [intros [= <- <-]; lia|].
  destruct (tron_service.validate_tron_address_body env address (pause _ 1 w1))
    as [o2 w2] eqn:E2.
  apply validate_tron_address_body_slept in E2. rewrite slept_pause in E2.
  change (tenacity.wait_exponential 1 1 10 1) with 1 in E2.
  destruct (final o2); [intros [= <- <-]; lia|].
  destruct (tron_service.validate_tron_address_body env address (pause _ 2 w2))
    as [o3 w3] eqn:E3.
  apply validate_tron_address_body_slept in E3. rewrite slept_pause in E3.
  change (tenacity.wait_exponential 1 1 10 2) with 2 in E3.
  intros [= <- <-]. lia.
Qed.

(** One attempt of [get_address_info] sleeps only inside its validation. *)
Lemma get_address_info_body_slept (address : string) (w w' : World) (o : Outcome Info) :
  tron_service.get_address_info_body env address w = (o, w') ->
  slept w <= slept w' <= slept w + 3.
Proof.
  rewrite get_address_info_body_eq.
  destruct (tron_service.validate_tron_address env address w) as [r w1] eqn:V.
  apply validate_tron_address_slept in V.
  destruct r as [[]|e]; [| intros [= <- <-]; exact V ..].
  cbv zeta.
  destruct (get_account_resource env (tick w1) address) as [resource|e];
    [destruct (get_account_balance env (S (tick w1)) address) as [bal|e]|];
    intros [= <- <-]; exact V.
Qed.

Lemma get_address_info_slept (address : string) (w w' : World) (o : Outcome Info) :
  tron_service.get_address_info env address w = (o, w') ->
  slept w <= slept w' <= slept w + 12.
Proof.
  rewrite get_address_info_decorated, decorated_unfold.
  destruct (tron_service.get_address_info_body env address w) as [o1 w1] eqn:E1.
  apply get_address_info_body_slept in E1.
  destruct (final o1); [intros [= <- <-]; lia|].
  destruct (tron_service.get_address_info_body env address (pause _ 1 w1))
    as [o2 w2] eqn:E2.
  apply get_address_info_body_slept in E2. rewrite slept_pause in E2.
  change (tenacity.wait_exponential 1 1 10 1) with 1 in E2.
  destruct (final o2); [intros [= <- <-]; lia|].
  destruct (tron_service.get_address_info_body env address (pause _ 2 w2))
    as [o3 w3] eqn:E3.
  apply get_address_info_body_slept in E3. rewrite slept_pause in E3.
  change (tenacity.wait_exponential 1 1 10 2) with 2 in E3.
  intros [= <- <-]. lia.
Qed.

Lemma lookup_info_slept (address : string) (w w' : World) (o : Outcome Info) :
  main.lookup_info env address w = (o, w') ->
  slept w <= slept w' <= slept w + 12.
Proof.
  rewrite lookup_info_eq.
  destruct (cachetools.contains (cache_state w) (clock w) address).
  - cbv zeta. destruct (cachetools.getitem (cache_state w) (clock w) address).
    intros [= <- <-]. unfold slept. cbn. lia.
  - destruct (tron_service.get_address_info env address w) as [[info|e] w1] eqn:G;
      apply get_address_info_slept in G.
    + destruct (cachetools.setitem (cache_state w1) (clock w1) address info) as [[[]|e] c];
        intros [= <- <-]; unfold slept in *; cbn; lia.
    + intros [= <- <-]. exact G.
Qed.

Lemma finish_slept (address : string) (info : Info) (w : World) :
  slept (snd (finish env address info w)) = slept w.
Proof.
  unfold finish. rewrite commit_eq.
  destruct (commit_fault env info (tick w)) as [e|].
  { destruct (except_eq address e (called env DbCommit w)) as (d & m & -> & _). reflexivity. }
  rewrite refresh_eq. cbn [tick committed].
  destruct (db_fault env (S (tick w))) as [e|].
  - destruct (except_eq address e (called env DbRefresh (committed env address info w)))
      as (d & m & -> & _).
    reflexivity.
  - reflexivity.
Qed.

End Backoff.

(** The time lost to backoff is bounded: a call of the validator sleeps at
    most 3 seconds in all, a call of [get_address_info], whose attempts
    each validate again, at most 12, and so a lookup at most 15. *)
Theorem backoff_is_bounded (env : Env) (request : main.AddressRequest) (w : World) :
  slept w
  <= slept (snd (tron_service.validate_tron_address env (main.address request) w))
  <= slept w + 3
  /\ slept w
     <= slept (snd (tron_service.get_address_info env (main.address request) w))
     <= slept w + 12
  /\ slept w
     <= slept (snd (main.get_address_info_endpoint env request w))
     <= slept w + 15.
Proof.
  assert (slept w
          <= slept (snd (tron_service.validate_tron_address env (main.address request) w))
          <= slept w + 3) as Hv.
  { destruct (tron_service.validate_tron_address env (main.address request) w)
      as [o w'] eqn:V.
    apply validate_tron_address_slept in V. exact V. }
  split; [exact Hv|]. split.
  { destruct (tron_service.get_address_info env (main.address request) w)
      as [o w'] eqn:G.
    apply get_address_info_slept in G. exact G. }
  rewrite get_address_info_endpoint_finish.
  destruct (tron_service.validate_tron_address env (main.address request) w)
    as [v w1]. cbn [snd] in Hv.
  destruct v as [[]|e]; [|cbn; lia..].
  destruct (main.lookup_info env (main.address request) w1) as [o w2] eqn:L.
  apply lookup_info_slept in L.
  destruct o as [info|e].
  - rewrite finish_slept. lia.
  - destruct (except_eq (main.address request) e w2) as (d & m & -> & _).
    cbn [snd]. change (slept (logged ERROR m w2)) with (slept w2). lia.
Qed.

Lemma reads_in_order_trans (w1 w2 w3 : World) :
  reads_in_order w1 w2 -> reads_in_order w2 w3 -> reads_in_order w1 w3.
Proof. intros [] []. split; lia. Qed.

Lemma reads_in_order_pause (name : string) (n : nat) (w : World) :
  reads_in_order w (pause name n w).
Proof.
  split; unfold account_calls, resource_calls, balance_calls; cbn; lia.
Qed.

Section ReadOrder.
Variable env : Env.

Lemma get_address_info_body_reads (address : string) (w w' : World) (o : Outcome Info) :
  tron_service.get_address_info_body env address w = (o, w') -> reads_in_order w w'.
Proof.
  rewrite get_address_info_body_eq.
  destruct (tron_service.validate_tron_address env address w) as [r w1] eqn:V.
  apply validate_tron_address_frame in V. destruct V.
  destruct r as [[]|e]; [| intros [= <- <-]; split; lia ..].
  cbv zeta.
  destruct (get_account_resource env (tick w1) address) as [resource|e];
    [destruct (get_account_balance env (S (tick w1)) address) as [bal|e]|];
    intros [= <- <-]; split;
    unfold account_calls, resource_calls, balance_calls in *; cbn; lia.
Qed.

End ReadOrder.

(** An exception of the validation inside [get_address_info], be it the
    [RetryError] of its exhausted retries or an error of the ledger, ends
    the call at once in the world the validation left: the outer decorator
    does not retry it, nothing is read and nothing is slept. *)
Theorem validation_failure_ends_the_fetch
    (env : Env) (address : string) (w w1 : World) (e : Exc) :
  tron_service.validate_tron_address env address w = (Raise e, w1) ->
  tron_service.get_address_info env address w = (Raise e, w1).
Proof.
  intros V.
  assert (tenacity.retry_if_exception_type e = false) as R.
  { rewrite validate_tron_address_decorated in V.
    apply decorated_never_network in V. exact V. }
  rewrite get_address_info_decorated. apply decorated_first.
  - rewrite get_address_info_body_eq, V. reflexivity.
  - cbn. rewrite R. reflexivity.
Qed.

Lemma validation_failure_ends_the_fetch_witness :
  tron_service.get_address_info scenario.unreachable scenario.address scenario.start
  = (Raise (RetryError scenario.network_error),
     snd (tron_service.validate_tron_address
            scenario.unreachable scenario.address scenario.start)).
Proof.
  apply (validation_failure_ends_the_fetch scenario.unreachable scenario.address
           scenario.start). reflexivity.
Defined.

(** Within a call of [get_address_info], over all its attempts, the
    balance is read no more often than the resource, and the resource no
    more often than the account is looked up: no read without a validation
    before it, no balance read without a resource read before it. *)
Theorem reads_follow_validation (env : Env) (address : string) (w : World) :
  reads_in_order w (snd (tron_service.get_address_info env address w)).
Proof.
  rewrite get_address_info_decorated, decorated_unfold.
  destruct (tron_service.get_address_info_body env address w) as [o1 w1] eqn:E1.
  apply get_address_info_body_reads in E1.
  destruct (final o1); [exact E1|].
  destruct (tron_service.get_address_info_body env address (pause _ 1 w1))
    as [o2 w2] eqn:E2.
  apply get_address_info_body_reads in E2.
  pose proof (reads_in_order_trans _ _ _
                (reads_in_order_trans _ _ _ E1 (reads_in_order_pause _ 1 w1)) E2) as F2.
  destruct (final o2); [exact F2|].
  destruct (tron_service.get_address_info_body env address (pause _ 2 w2))
    as [o3 w3] eqn:E3.
  apply get_address_info_body_reads in E3.
  exact (reads_in_order_trans _ _ _
           (reads_in_order_trans _ _ _ F2 (reads_in_order_pause _ 2 w2)) E3).
Qed.

(** * Further properties of [main.py]: the history endpoint *)


Section Pages.
Implicit Types (l : list models.TronAddressInfo).

(** What is on the page that starts after [a] rows is among the first
    [a + p] rows and behind the first [a]. *)
Lemma page_elem_lookup l (a p : nat) (x : models.TronAddressInfo) :
  x ∈ take p (drop a l) <-> exists i, (i < p)%nat /\ l !! (a + i)%nat = Some x.
Proof.
  rewrite list_elem_of_lookup. split.
  - intros [i Hi]. apply lookup_take_Some in Hi as [Hi Hlt].
    rewrite lookup_drop in Hi. eauto.
  - intros (i & Hlt & Hi). exists i. apply lookup_take_Some. split; [|exact Hlt].
    rewrite lookup_drop. exact Hi.
Qed.

Lemma StronglySorted_lookup (R : relation models.TronAddressInfo) l (i j : nat) x y :
  StronglySorted R l -> (i < j)%nat -> l !! i = Some x -> l !! j = Some y -> R x y.
Proof.
  intros Hs Hij Hx Hy.
  rewrite <- (take_drop j l) in Hs.
  apply (StronglySorted_app_1_elem_of R _ _ x y Hs).
  - apply list_elem_of_lookup. exists i. apply lookup_take_Some. auto.
  - apply list_elem_of_lookup. exists 0%nat. rewrite lookup_drop.
    rewrite Nat.add_0_r. exact Hy.
Qed.

End Pages.

(** The answer to a valid request when the database answers, written out. *)
Lemma get_recent_requests_ok (env : Env) (k p : Z) (w : World) :
  1 <= k -> 1 <= p <= 100 -> (k - 1) * p < 2 ^ 63 ->
  db_fault env (tick w) = None -> db_fault env (S (tick w)) = None ->
  fst (main.get_recent_requests env (Some k) (Some p) w)
  = Return {| main.total := Z.of_nat (length (store w));
              main.page := k;
              main.page_size := p;
              main.data :=
                take (Z.to_nat p)
                  (drop (Z.to_nat ((k - 1) * p))
                     (database.order_by_timestamp_desc (store w))) |}.
Proof.
  intros Hk Hp Ho F1 F2.
  destruct (get_recent_requests_body_ok env k p w F1 F2) as (w' & E & _).
  { apply fits_spec. nia. }
  { apply fits_spec. lia. }
  unfold main.get_recent_requests, main.resolve, main.within. cbn.
  destruct (Z.leb_spec 1 k); [|lia]. destruct (Z.leb_spec 1 p); [|lia].
  destruct (Z.leb_spec p 100); [|lia]. cbn. rewrite E. cbn.
  unfold database.limit, database.offset.
  destruct (Z.ltb_spec p 0); [lia|reflexivity].
Qed.

(** A page that was returned is the page of the ordered table. *)
Lemma get_recent_requests_return (env : Env) (k p : Z) (w : World)
    (response : main.RecentRequests) :
  1 <= p ->
  fst (main.get_recent_requests env (Some k) (Some p) w) = Return response ->
  response = {| main.total := Z.of_nat (length (store w));
                main.page := k;
                main.page_size := p;
                main.data :=
                  take (Z.to_nat p)
                    (drop (Z.to_nat ((k - 1) * p))
                       (database.order_by_timestamp_desc (store w))) |}.
Proof.
  intros Hp. unfold main.get_recent_requests, main.resolve.
  destruct (main.within main.page_query k); [|discriminate].
  destruct (main.within main.page_size_query p); [|discriminate].
  rewrite get_recent_requests_body_eq.
  destruct (db_fault env (tick w)); [discriminate|].
  destruct (db_fault env (S (tick w))); [discriminate|].
  destruct (database.fits ((k - 1) * p) && database.fits p); [|discriminate].
  intros [= <-]. unfold database.limit, database.offset.
  destruct (Z.ltb_spec p 0); [lia|reflexivity].
Qed.

(** Pages come newest first: no record on a page is older than a record
    on a later page of the same table. *)
Theorem earlier_pages_are_newer
    (env : Env) (k k' p : Z) (w w2 : World)
    (first later : main.RecentRequests) (x y : models.TronAddressInfo) :
  1 <= k -> k < k' -> 1 <= p <= 100 ->
  db_fault env (tick w) = None -> db_fault env (S (tick w)) = None ->
  db_fault env (tick w2) = None -> db_fault env (S (tick w2)) = None ->
  store w2 = store w ->
  fst (main.get_recent_requests env (Some k) (Some p) w) = Return first ->
  fst (main.get_recent_requests env (Some k') (Some p) w2) = Return later ->
  x ∈ main.data first -> y ∈ main.data later ->
  models.timestamp y <= models.timestamp x.
Proof.
  intros Hk Hkk Hp F1 F2 F3 F4 Hstore E1 E2 Hx Hy.
  apply get_recent_requests_return in E1; [|lia].
  apply get_recent_requests_return in E2; [|lia].
  subst first later. cbn in Hx, Hy. rewrite Hstore in Hy.
  apply page_elem_lookup in Hx as (i & Hi & Hx).
  apply page_elem_lookup in Hy as (j & Hj & Hy).
  pose proof (order_by_timestamp_desc_sorted (store w)) as Hsorted.
  assert (Z.to_nat ((k - 1) * p) + i < Z.to_nat ((k' - 1) * p) + j)%nat as Hlt.
  { assert (Z.of_nat (Z.to_nat ((k - 1) * p)) + Z.of_nat i
            < Z.of_nat (Z.to_nat ((k' - 1) * p))); [|lia].
    rewrite !Z2Nat.id by nia. nia. }
  exact (StronglySorted_lookup database.newer_first _ _ _ x y Hsorted Hlt Hx Hy).
Qed.

Lemma earlier_pages_are_newer_witness :
  models.timestamp (scenario.row 5) <= models.timestamp (scenario.row 6).
Proof.
  apply (earlier_pages_are_newer scenario.healthy 1 2 10 scenario.sixteen scenario.sixteen
           {| main.total := 16; main.page := 1; main.page_size := 10;
              main.data := take 10 (database.order_by_timestamp_desc
                                      (store scenario.sixteen)) |}
           {| main.total := 16; main.page := 2; main.page_size := 10;
              main.data := take 10 (drop 10 (database.order_by_timestamp_desc
                                               (store scenario.sixteen))) |});
    try lia; try reflexivity.
  - apply list_elem_of_lookup. exists 9%nat. vm_compute. reflexivity.
  - apply list_elem_of_lookup. exists 0%nat. vm_compute. reflexivity.
Defined.

(** Paging reaches every record: whatever the page size, each row of a
    table that SQLite can hold (its rowids are 64-bit) is on some page. *)
Theorem every_record_is_on_a_page
    (env : Env) (p : Z) (w : World) (row : models.TronAddressInfo) :
  1 <= p <= 100 ->
  db_fault env (tick w) = None -> db_fault env (S (tick w)) = None ->
  Z.of_nat (length (store w)) <= 2 ^ 63 ->
  row ∈ store w ->
  exists (k : Z) (response : main.RecentRequests),
    1 <= k
    /\ fst (main.get_recent_requests env (Some k) (Some p) w) = Return response
    /\ row ∈ main.data response.
Proof.
  intros Hp F1 F2 Hsize Hrow.
  assert (row ∈ database.order_by_timestamp_desc (store w)) as Hin.
  { rewrite (order_by_timestamp_desc_perm (store w)). exact Hrow. }
  apply list_elem_of_lookup in Hin as [i Hi].
  assert (i < length (store w))%nat as Hlen.
  { apply lookup_lt_Some in Hi.
    rewrite (order_by_timestamp_desc_perm (store w)) in Hi. exact Hi. }
  set (n := Z.to_nat p). assert (n <> 0)%nat as Hn by (subst n; lia).
  pose proof (Nat.div_mod_eq i n) as Hdiv0.
  exists (Z.of_nat (i / n) + 1). eexists. split; [lia|]. split.
  { apply get_recent_requests_ok; try assumption; [lia|].
    replace ((Z.of_nat (i / n) + 1 - 1) * p) with (Z.of_nat (n * (i / n)))
      by (subst n; lia).
    lia. }
  cbn [main.data]. apply page_elem_lookup. exists (i mod n)%nat. split.
  { apply Nat.mod_upper_bound. exact Hn. }
  replace (Z.to_nat ((Z.of_nat (i / n) + 1 - 1) * p) + i mod n)%nat with i; [exact Hi|].
  pose proof (Nat.div_mod_eq i n) as Hdiv.
  replace ((Z.of_nat (i / n) + 1 - 1) * p) with (Z.of_nat (i / n * n)) by (subst n; lia).
  lia.
Qed.

Lemma every_record_is_on_a_page_witness :
  exists (k : Z) (response : main.RecentRequests),
    1 <= k
    /\ fst (main.get_recent_requests scenario.healthy (Some k) (Some 10) scenario.sixteen)
       = Return response
    /\ scenario.row 3 ∈ main.data response.
Proof.
  apply (every_record_is_on_a_page scenario.healthy 10 scenario.sixteen (scenario.row 3));
    try lia; try reflexivity.
  { vm_compute. discriminate. }
  apply list_elem_of_lookup. exists 3%nat. reflexivity.
Defined.

(** * Further properties of [main.py]: the lookup handler *)

Section LookupFacts.
Variable env : Env.

Lemma finish_account (address : string) (info : Info) (w : World) :
  account_calls (snd (finish env address info w)) = account_calls w.
Proof.
  unfold finish. rewrite commit_eq.
  destruct (commit_fault env info (tick w)) as [e|].
  { destruct (except_eq address e (called env DbCommit w)) as (d & m & -> & _). reflexivity. }
  rewrite refresh_eq. cbn [tick committed].
  destruct (db_fault env (S (tick w))) as [e|].
  - destruct (except_eq address e (called env DbRefresh (committed env address info w)))
      as (d & m & -> & _).
    reflexivity.
  - reflexivity.
Qed.

Lemma lookup_info_account (address : string) (w w' : World) (o : Outcome Info) :
  main.lookup_info env address w = (o, w') ->
  (account_calls w <= account_calls w')%nat.
Proof.
  rewrite lookup_info_eq.
  destruct (cachetools.contains (cache_state w) (clock w) address).
  - cbv zeta. destruct (cachetools.getitem (cache_state w) (clock w) address).
    intros [= <- <-]. unfold account_calls. cbn. lia.
  - destruct (tron_service.get_address_info env address w) as [[info|e] w1] eqn:G;
      apply get_address_info_frame in G; destruct G.
    + destruct (cachetools.setitem (cache_state w1) (clock w1) address info) as [[[]|e] c];
        intros [= <- <-]; unfold account_calls in *; cbn; lia.
    + intros [= <- <-]. lia.
Qed.

(** The [except] clauses, with the line they log. *)
Lemma except_logged (address : string) (e : Exc) (w : World) :
  main.except address e w
  = (Raise (HTTPException 500
              ((if main.is_network_error e then "Network error: "
                else "Internal server error: ") +:+ str e)),
     logged ERROR
       ((if main.is_network_error e then "Network error for address "
         else "Error processing address ") +:+ address +:+ ": " +:+ str e) w).
Proof. unfold main.except. destruct (main.is_network_error e); reflexivity. Qed.

(** What the cache-or-fetch step does to the keys of the cache. *)
Lemma lookup_info_keys (address : string) (w w' : World) (o : Outcome Info) :
  well_formed (cache_state w) ->
  main.lookup_info env address w = (o, w') ->
  forall k, k ∈ (cachetools.data (cache_state w')).*1 ->
            k = address \/ k ∈ (cachetools.data (cache_state w)).*1.
Proof.
  intros Hwf. rewrite lookup_info_eq.
  destruct (cachetools.contains (cache_state w) (clock w) address).
  - cbv zeta.
    pose proof (getitem_spec (cache_state w) (clock w) address Hwf) as (_ & _ & _ & _ & Hsub).
    destruct (cachetools.getitem (cache_state w) (clock w) address) as [r c].
    intros [= <- <-] k Hin. cbn in *. right.
    apply list_elem_of_fmap in Hin as [[k' v] [-> Hin]].
    apply Hsub in Hin. apply (list_elem_of_fmap_2 fst) in Hin. exact Hin.
  - destruct (tron_service.get_address_info env address w) as [[info|e] w1] eqn:G;
      apply get_address_info_frame in G; destruct G as [Gc _ _ _ _ _ _ _].
    + assert (well_formed (cache_state w1)) as Hwf1 by (rewrite Gc; exact Hwf).
      destruct (setitem_spec (cache_state w1) (clock w1) address info Hwf1)
        as (r1 & c' & -> & _ & _ & _ & _ & Hda & _).
      rewrite Gc in Hda.
      assert (forall k, k ∈ (cachetools.data c').*1 ->
                        k = address \/ k ∈ (cachetools.data (cache_state w)).*1) as Hkeys.
      { intros k Hin. apply list_elem_of_fmap in Hin as [[k' v] [-> Hin]].
        destruct (Hda _ _ Hin) as [[-> _]|[_ Hin']]; [left; reflexivity|right].
        apply (list_elem_of_fmap_2 fst) in Hin'. exact Hin'. }
      destruct r1 as [[]|e1]; intros [= <- <-]; exact Hkeys.
    + intros [= <- <-] k Hin. right. rewrite Gc in Hin. exact Hin.
Qed.

End LookupFacts.

(** The cache never spares the validation: every lookup, hit or miss,
    looks the account up at least once, and it answers only when the
    validator returned true, with the address it was asked. *)
Theorem every_lookup_validates (env : Env) (request : main.AddressRequest) (w : World) :
  (account_calls w < account_calls (snd (main.get_address_info_endpoint env request w)))%nat
  /\ forall response,
       fst (main.get_address_info_endpoint env request w) = Return response ->
       fst (tron_service.validate_tron_address env (main.address request) w) = Return true
       /\ main.info_address response = main.address request.
Proof.
  rewrite get_address_info_endpoint_finish.
  destruct (tron_service.validate_tron_address env (main.address request) w)
    as [v w1] eqn:V.
  apply validate_tron_address_frame in V. destruct V as [_ _ _ _ _ Va _ _].
  destruct v as [[]|e]; [|split; [cbn; lia|discriminate]..].
  destruct (main.lookup_info env (main.address request) w1) as [o w2] eqn:L.
  apply lookup_info_account in L.
  destruct o as [info|e].
  - split; [rewrite finish_account; lia|].
    intros response E. split; [reflexivity|].
    unfold finish in E. rewrite commit_eq in E.
    destruct (commit_fault env info (tick w2)); [rewrite except_logged in E; discriminate|].
    rewrite refresh_eq in E. cbn [tick committed] in E.
    destruct (db_fault env (S (tick w2))); [rewrite except_logged in E; discriminate|].
    injection E as <-. reflexivity.
  - rewrite except_logged. split; [|discriminate].
    cbn [snd]. change (account_calls (logged ERROR _ w2)) with (account_calls w2). lia.
Qed.

(** Failed lookups are never cached.  When the validator does not return
    true, or the fetch of a miss raises, the cache is left exactly as it
    was; and in every case the only key a lookup can add to the cache is
    the address it was asked. *)
Theorem failures_are_not_cached (env : Env) (request : main.AddressRequest) (w : World) :
  well_formed (cache_state w) ->
  (fst (tron_service.validate_tron_address env (main.address request) w) <> Return true ->
   cache_state (snd (main.get_address_info_endpoint env request w)) = cache_state w)
  /\ (forall w1 w2 e,
        tron_service.validate_tron_address env (main.address request) w = (Return true, w1) ->
        cachetools.contains (cache_state w1) (clock w1) (main.address request) = false ->
        tron_service.get_address_info env (main.address request) w1 = (Raise e, w2) ->
        cache_state (snd (main.get_address_info_endpoint env request w)) = cache_state w)
  /\ (forall k,
        k ∈ (cachetools.data
               (cache_state (snd (main.get_address_info_endpoint env request w)))).*1 ->
        k = main.address request \/ k ∈ (cachetools.data (cache_state w)).*1).
Proof.
  intros Hwf. rewrite get_address_info_endpoint_finish.
  destruct (tron_service.validate_tron_address env (main.address request) w)
    as [v w1] eqn:V.
  pose proof (validate_tron_address_frame _ _ _ _ _ V) as [Vc _ _ _ _ _ _ _].
  split_and!.
  - intros Hv. destruct v as [[]|e]; [contradiction|exact Vc..].
  - intros w1' w2 e [= -> <-] Hmiss G.
    rewrite lookup_info_eq, Hmiss, G, except_logged. cbn.
    apply get_address_info_frame in G. destruct G as [Gc _ _ _ _ _ _ _]. congruence.
  - destruct v as [[]|e]; [|intros k Hin; right; cbn in Hin; rewrite Vc in Hin; exact Hin..].
    destruct (main.lookup_info env (main.address request) w1) as [o w2] eqn:L.
    assert (well_formed (cache_state w1)) as Hwf1 by (rewrite Vc; exact Hwf).
    pose proof (lookup_info_keys env _ _ _ _ Hwf1 L) as Hkeys. rewrite Vc in Hkeys.
    destruct o as [info|e].
    + pose proof (finish_frame env (main.address request) info w2) as (Fc & _).
      rewrite Fc. exact Hkeys.
    + rewrite except_logged. exact Hkeys.
Qed.

Lemma failures_are_not_cached_witness :
  cache_state (snd (main.get_address_info_endpoint
                      scenario.fetch_unreachable scenario.request scenario.start))
  = cache_state scenario.start.
Proof.
  pose proof (failures_are_not_cached scenario.fetch_unreachable scenario.request
                scenario.start) as H.
  destruct H as (_ & H & _).
  - split; cbn; try lia; try apply NoDup_nil_2. reflexivity.
  - apply (H (snd (tron_service.validate_tron_address
                     scenario.fetch_unreachable scenario.address scenario.start))
             (snd (tron_service.get_address_info
                     scenario.fetch_unreachable scenario.address
                     (snd (tron_service.validate_tron_address
                             scenario.fetch_unreachable scenario.address scenario.start))))
             (RetryError scenario.network_error)); vm_compute; reflexivity.
Defined.

(** Whatever goes wrong inside the [try] is logged before it is answered:
    once the validator has returned true, the lookup either answers or
    raises [HTTPException(500)], and then the last thing it did was to log,
    at level ERROR, a line with the address and the very error text of the
    detail.  An exception of the validator itself is raised outside the
    [try]: it leaves the handler as it is, in the world the validator left,
    with nothing logged by the handler. *)
Theorem failures_inside_the_try_are_logged
    (env : Env) (request : main.AddressRequest) (w w1 : World) :
  (tron_service.validate_tron_address env (main.address request) w = (Return true, w1) ->
   let '(r, w') := main.get_address_info_endpoint env request w in
   match r with
   | Return _ => True
   | Raise (HTTPException status detail) =>
       status = 500
       /\ exists (e : Exc) (before : list Event),
            detail = (if main.is_network_error e then "Network error: "
                      else "Internal server error: ") +:+ str e
            /\ trace w'
               = Log ERROR
                   ((if main.is_network_error e then "Network error for address "
                     else "Error processing address ")
                    +:+ main.address request +:+ ": " +:+ str e) :: before
   | Raise _ => False
   end)
  /\ (forall e,
        tron_service.validate_tron_address env (main.address request) w = (Raise e, w1) ->
        main.get_address_info_endpoint env request w = (Raise e, w1)).
Proof.
  split.
  - intros V. rewrite get_address_info_endpoint_finish, V.
    destruct (main.lookup_info env (main.address request) w1) as [[info|e] w2].
    2: { rewrite except_logged. split; [reflexivity|]. eexists e, _. split; reflexivity. }
    unfold finish. rewrite commit_eq.
    destruct (commit_fault env info (tick w2)) as [e|].
    { rewrite except_logged. split; [reflexivity|]. eexists e, _. split; reflexivity. }
    rewrite refresh_eq. cbn [tick committed].
    destruct (db_fault env (S (tick w2))) as [e|]; [|exact I].
    rewrite except_logged. split; [reflexivity|]. eexists e, _. split; reflexivity.
  - intros e V. rewrite get_address_info_endpoint_finish, V. reflexivity.
Qed.

Lemma failures_inside_the_try_are_logged_witness :
  let '(r, w') :=
    main.get_address_info_endpoint scenario.refresh_fails scenario.request scenario.start in
  match r with
  | Return _ => True
  | Raise (HTTPException status detail) =>
      status = 500
      /\ exists (e : Exc) (before : list Event),
           detail = (if main.is_network_error e then "Network error: "
                     else "Internal server error: ") +:+ str e
           /\ trace w'
              = Log ERROR
                  ((if main.is_network_error e then "Network error for address "
                    else "Error processing address ")
                   +:+ main.address scenario.request +:+ ": " +:+ str e) :: before
  | Raise _ => False
  end.
Proof.
  apply (proj1 (failures_inside_the_try_are_logged scenario.refresh_fails
                  scenario.request scenario.start
                  (snd (tron_service.validate_tron_address
                          scenario.refresh_fails scenario.address scenario.start)))).
  reflexivity.
Defined.

(** * Further properties of the cache of [main.py] *)

Section Eviction.
Context {V : Type}.
Implicit Types (c : cachetools.TTLCache V) (k key : string) (now : Z).

Lemma remove_absent {B : Type} key (l : list (string * B)) :
  key ∉ l.*1 -> cachetools.remove key l = l.
Proof.
  induction l as [|[k b] l IH]; cbn; [reflexivity|].
  rewrite not_elem_of_cons. intros [Hne Hnin].
  destruct (decide (k = key)); [congruence|]. rewrite IH by exact Hnin. reflexivity.
Qed.

(** A cache all of whose links are live has nothing to expire. *)
Lemma expire_live c now : live_all c now -> cachetools.expire c now = c.
Proof.
  intros Hlive. unfold cachetools.expire.
  destruct c as [m t d ch]. cbn in *. unfold live_all in Hlive. cbn in Hlive.
  destruct ch as [|[k e] ch]; cbn; [reflexivity|].
  rewrite bool_decide_eq_true_2; [reflexivity|]. apply (Hlive k). left.
Qed.

(** [cache[key] = value] on a cache whose links are all live, in its three
    cases.  A key that is there is moved to the most recently used end
    with its new value, and nothing is dropped.  A new key is appended;
    when the cache is full, exactly the least recently used entry is
    dropped for it. *)
Theorem setitem_evicts_least_recently_used c now key (value : V) :
  well_formed c -> live_all c now ->
  exists c',
    cachetools.setitem c now key value = (Return tt, c')
    /\ cachetools.data c'
       = match cachetools.assoc key (cachetools.data c), cachetools.data c with
         | Some _, d => cachetools.remove key d ++ [(key, value)]
         | None, (k0, v0) :: rest =>
             if (length (cachetools.data c) <? cachetools.maxsize c)%nat
             then (k0, v0) :: rest ++ [(key, value)]
             else rest ++ [(key, value)]
         | None, [] => [(key, value)]
         end
    /\ cachetools.assoc key (cachetools.chain c') = Some (now + cachetools.ttl c).
Proof.
  intros Hwf Hlive. pose proof Hwf as [Hm Hs Hd Hc Hk].
  unfold cachetools.setitem. rewrite (expire_live c now Hlive).
  destruct (Nat.ltb_spec (cachetools.maxsize c) 1) as [Hbad|_]; [lia|].
  destruct (cachetools.assoc key (cachetools.data c)) as [v|] eqn:Ek.
  { eexists. split; [reflexivity|]. cbn. split; [reflexivity|].
    rewrite assoc_app, assoc_remove_eq. cbn.
    destruct (decide (key = key)); [reflexivity|contradiction]. }
  apply assoc_None in Ek.
  assert (key ∉ (cachetools.chain c).*1) as Ekc by (rewrite (Hk key); exact Ek).
  rewrite make_room_unfold. unfold cachetools.currsize.
  destruct (cachetools.data c) as [|[k0 v0] rest] eqn:Ed.
  { cbn [length]. destruct (Nat.ltb_spec (cachetools.maxsize c) (0 + 1)); [lia|].
    eexists. split; [reflexivity|]. cbn. rewrite Ed. cbn.
    rewrite (remove_absent key _ Ekc). split; [reflexivity|].
    rewrite assoc_app. apply assoc_None in Ekc. rewrite Ekc. cbn.
    destruct (decide (key = key)); [reflexivity|contradiction]. }
  assert (cachetools.remove key ((k0, v0) :: rest) = (k0, v0) :: rest) as Hrem
    by (apply remove_absent; exact Ek).
  assert (cachetools.assoc key (cachetools.remove key (cachetools.chain c) ++
                                  [(key, now + cachetools.ttl c)])
          = Some (now + cachetools.ttl c)) as Hlink.
  { rewrite assoc_app, assoc_remove_eq. cbn.
    destruct (decide (key = key)); [reflexivity|contradiction]. }
  destruct (Nat.ltb_spec (cachetools.maxsize c) (length ((k0, v0) :: rest) + 1))
    as [Hfull|Hfree].
  - (* full: the first key of the ordered dictionary goes *)
    destruct (Nat.ltb_spec (length ((k0, v0) :: rest)) (cachetools.maxsize c)); [lia|].
    assert (k0 ∈ (cachetools.data c).*1) as Hin0 by (rewrite Ed; left).
    cbn [length]. unfold cachetools.popitem.
    rewrite (expire_live c now Hlive), Ed, (live_contains c now k0 Hwf Hlive Hin0).
    cbn in Hd. apply NoDup_cons in Hd as [Hk0 Hd].
    assert (cachetools.remove k0 ((k0, v0) :: rest) = rest) as Hpop.
    { cbn. destruct (decide (k0 = k0)); [|contradiction]. apply remove_absent, Hk0. }
    rewrite make_room_unfold. unfold cachetools.currsize. cbn [cachetools.data cachetools.maxsize
      cachetools.with_data]. rewrite Hpop.
    destruct (Nat.ltb_spec (cachetools.maxsize c) (length rest + 1)); [cbn in *; lia|].
    eexists. split; [reflexivity|]. cbn [cachetools.data cachetools.chain cachetools.with_data
      cachetools.ttl].
    split.
    + rewrite remove_absent; [reflexivity|].
      cbn in Ek. apply not_elem_of_cons in Ek as [_ Ek]. exact Ek.
    + rewrite assoc_app, assoc_remove_eq. cbn.
      destruct (decide (key = key)); [reflexivity|contradiction].
  - destruct (Nat.ltb_spec (length ((k0, v0) :: rest)) (cachetools.maxsize c)); [|lia].
    eexists. split; [reflexivity|]. cbn. rewrite Ed, Hrem. split; [reflexivity|exact Hlink].
Qed.

End Eviction.

Lemma setitem_evicts_least_recently_used_witness :
  exists c',
    cachetools.setitem scenario.full 10 scenario.address scenario.nothing_staked
    = (Return tt, c')
    /\ cachetools.data c'
       = tail (cachetools.data scenario.full)
         ++ [(scenario.address, scenario.nothing_staked)]
    /\ cachetools.assoc scenario.address (cachetools.chain c') = Some 310.
Proof.
  assert (well_formed scenario.full) as Hwf.
  { split.
    - cbn. lia.
    - vm_compute. lia.
    - apply (bool_decide_unpack (NoDup (cachetools.data scenario.full).*1)).
      vm_compute. exact I.
    - apply (bool_decide_unpack (NoDup (cachetools.chain scenario.full).*1)).
      vm_compute. exact I.
    - intros k.
      replace ((cachetools.chain scenario.full).*1)
        with ((cachetools.data scenario.full).*1) by (vm_compute; reflexivity).
      reflexivity. }
  assert (live_all scenario.full 10) as Hlive.
  { intros k e Hin. unfold scenario.full in Hin. cbn [cachetools.chain] in Hin.
    apply list_elem_of_fmap in Hin as (n & [= _ ->] & _). lia. }
  destruct (setitem_evicts_least_recently_used scenario.full 10 scenario.address
              scenario.nothing_staked Hwf Hlive) as (c' & E & D & A).
  exists c'. split_and!; [exact E | rewrite D; vm_compute; reflexivity | exact A].
Defined.

Section Retention.
Context {V : Type}.
Implicit Types (c : cachetools.TTLCache V) (k key : string) (now : Z)
  (l : list (string * V)).

Lemma used_after_remove key k' l :
  key <> k' ->
  used_after key (cachetools.remove k' l) = cachetools.remove k' (used_after key l).
Proof.
  intros Hne. induction l as [|[k v] l IH]; cbn; [reflexivity|].
  destruct (decide (k = k')) as [->|Hk'].
  - destruct (decide (k' = key)); [congruence|exact IH].
  - cbn. destruct (decide (k = key)); [reflexivity|exact IH].
Qed.

Lemma used_after_app key l (x : list (string * V)) (v : V) :
  cachetools.assoc key l = Some v -> used_after key (l ++ x) = used_after key l ++ x.
Proof.
  induction l as [|[k b] l IH]; cbn; [discriminate|].
  destruct (decide (k = key)); [reflexivity|exact IH].
Qed.

Lemma used_after_snoc_self key l (v : V) :
  used_after key (cachetools.remove key l ++ [(key, v)]) = [].
Proof.
  induction l as [|[k b] l IH]; cbn.
  - destruct (decide (key = key)); [reflexivity|contradiction].
  - destruct (decide (k = key)); [exact IH|].
    cbn. destruct (decide (k = key)); [contradiction|exact IH].
Qed.

Lemma used_after_head key k0 (v0 : V) l :
  (length (used_after key ((k0, v0) :: l)) + 1 < length ((k0, v0) :: l))%nat ->
  k0 <> key.
Proof. cbn. destruct (decide (k0 = key)); [lia|auto]. Qed.

Lemma holds_remove c key value expires n k0 :
  k0 <> key -> holds c key value expires n ->
  holds (cachetools.with_data c (cachetools.remove k0 (cachetools.data c))
           (cachetools.remove k0 (cachetools.chain c))) key value expires n.
Proof.
  intros Hne (Hc & Hd & Hn). unfold holds. cbn.
  rewrite !assoc_remove_ne by exact Hne. split_and!; auto.
  rewrite used_after_remove by congruence.
  pose proof (length_remove_le k0 (used_after key (cachetools.data c))). lia.
Qed.

Lemma holds_store c key value expires n key' (v' : V) (e' : Z) :
  key <> key' -> holds c key value expires n ->
  holds (cachetools.with_data c
           (cachetools.remove key' (cachetools.data c) ++ [(key', v')])
           (cachetools.remove key' (cachetools.chain c) ++ [(key', e')]))
    key value expires (S n).
Proof.
  intros Hne (Hc & Hd & Hn). unfold holds. cbn.
  rewrite !assoc_app, !assoc_remove_ne, Hc, Hd by congruence. split_and!; auto.
  rewrite (used_after_app key _ _ value) by (rewrite assoc_remove_ne by congruence; exact Hd).
  rewrite length_app, used_after_remove by exact Hne. cbn.
  pose proof (length_remove_le key' (used_after key (cachetools.data c))). lia.
Qed.

(** [expire] keeps a key whose link is live. *)
Lemma expire_loop_holds now (ch : list (string * Z)) l key (value : V) expires (n : nat) :
  cachetools.assoc key ch = Some expires -> now < expires ->
  cachetools.assoc key l = Some value -> (length (used_after key l) <= n)%nat ->
  cachetools.assoc key (cachetools.expire_loop now ch l).2 = Some expires
  /\ cachetools.assoc key (cachetools.expire_loop now ch l).1 = Some value
  /\ (length (used_after key (cachetools.expire_loop now ch l).1) <= n)%nat.
Proof.
  revert l. induction ch as [|[k0 e0] ch IH]; intros l Hc Hlive Hd Hn; [discriminate|].
  cbn in *. destruct (bool_decide (now < e0)) eqn:E; [cbn; auto|].
  destruct (decide (k0 = key)) as [->|Hne].
  { injection Hc as ->. apply bool_decide_eq_false in E. contradiction. }
  apply IH; auto.
  - rewrite assoc_remove_ne by exact Hne. exact Hd.
  - rewrite used_after_remove by congruence.
    pose proof (length_remove_le k0 (used_after key l)). lia.
Qed.

Lemma expire_holds c now key value expires n :
  now < expires -> holds c key value expires n ->
  holds (cachetools.expire c now) key value expires n.
Proof.
  intros Hlive (Hc & Hd & Hn). unfold holds, cachetools.expire.
  pose proof (expire_loop_holds now _ _ key value expires n Hc Hlive Hd Hn) as H.
  destruct (cachetools.expire_loop now (cachetools.chain c) (cachetools.data c)).
  exact H.
Qed.

(** Setting another key keeps [key], as long as fewer than [maxsize - 1]
    entries were used after it: the entry dropped for a new key is never
    it, and one more entry is then more recent than it. *)
Lemma setitem_holds c now key value expires n key' (v' : V) :
  well_formed c -> key <> key' -> now < expires ->
  (n + 1 < cachetools.maxsize c)%nat ->
  holds c key value expires n ->
  holds (snd (cachetools.setitem c now key' v')) key value expires (S n).
Proof.
  intros Hwf Hne Hlive Hroom Hholds.
  pose proof (expire_well_formed c now Hwf) as Hwf1.
  pose proof (expire_idempotent c now Hwf) as Hidem.
  pose proof (expire_maxsize c now) as [Hmax _].
  pose proof (expire_holds c now key value expires n Hlive Hholds) as H1.
  assert (forall c0, holds c0 key value expires n -> holds c0 key value expires (S n)) as Hweak.
  { intros c0 (? & ? & ?). split_and!; auto. }
  unfold cachetools.setitem.
  set (c1 := cachetools.expire c now) in *.
  destruct (Nat.ltb_spec (cachetools.maxsize c1) 1); [cbn; auto|].
  destruct (cachetools.assoc key' (cachetools.data c1)) as [v0|].
  { cbn. apply holds_store; assumption. }
  rewrite make_room_unfold. unfold cachetools.currsize.
  destruct (Nat.ltb_spec (cachetools.maxsize c1) (length (cachetools.data c1) + 1))
    as [Hfull|Hfree]; [|cbn; apply holds_store; assumption].
  destruct (cachetools.data c1) as [|[k0 v0] rest] eqn:Ed; [cbn in *; lia|].
  cbn [length]. unfold cachetools.popitem. rewrite Hidem, Ed.
  destruct (cachetools.contains c1 now k0); [|cbn; auto].
  assert (k0 <> key) as Hk0.
  { destruct H1 as (_ & _ & Hn). rewrite Ed in Hn.
    apply (used_after_head key k0 v0 rest). cbn [length] in *. lia. }
  pose proof (holds_remove c1 key value expires n k0 Hk0 H1) as H2.
  pose proof (remove_well_formed c1 k0 Hwf1) as Hwf2.
  rewrite Ed in H2, Hwf2.
  set (c2 := cachetools.with_data c1 _ _) in *.
  rewrite make_room_unfold. unfold cachetools.currsize.
  destruct (Nat.ltb_spec (cachetools.maxsize c2) (length (cachetools.data c2) + 1)) as [Hbad|_].
  { exfalso. subst c2. cbn in Hbad.
    assert (k0 ∈ (cachetools.data c1).*1) as Hin0 by (rewrite Ed; left).
    pose proof (length_remove_lt k0 _ Hin0) as Hlt. rewrite Ed in Hlt.
    pose proof (wf_size c1 Hwf1) as Hs. rewrite Ed in Hs. cbn in *. lia. }
  cbn. apply holds_store; assumption.
Qed.

(** Reading any key keeps [key]; at most the key read becomes more recent
    than it. *)
Lemma getitem_holds c now key value expires n key' :
  holds c key value expires n ->
  holds (snd (cachetools.getitem c now key')) key value expires (S n).
Proof.
  intros (Hc & Hd & Hn).
  assert (holds c key value expires (S n)) as Hweak by (split_and!; auto).
  unfold cachetools.getitem.
  destruct (cachetools.assoc key' (cachetools.chain c)) as [e'|].
  2: { destruct (cachetools.assoc key' (cachetools.data c)); exact Hweak. }
  assert (holds (cachetools.with_data c (cachetools.move_to_end key' (cachetools.data c))
                   (cachetools.chain c)) key value expires (S n)) as Hmoved.
  { unfold holds, cachetools.move_to_end. cbn.
    destruct (cachetools.assoc key' (cachetools.data c)) as [v'|] eqn:Ek; [|exact Hweak].
    destruct (decide (key = key')) as [<-|Hne].
    - rewrite used_after_snoc_self, assoc_app, assoc_remove_eq. cbn.
      destruct (decide (key = key)); [|contradiction].
      split_and!; auto; [congruence|lia].
    - rewrite assoc_app, assoc_remove_ne, Hd by congruence. split_and!; auto.
      rewrite (used_after_app key _ _ value)
        by (rewrite assoc_remove_ne by congruence; exact Hd).
      rewrite length_app, used_after_remove by exact Hne. cbn.
      pose proof (length_remove_le key' (used_after key (cachetools.data c))). lia. }
  destruct (bool_decide (now < e'));
    [destruct (cachetools.assoc key' (cachetools.data c))|]; exact Hmoved.
Qed.

End Retention.

Section MonotonicHistory.
Context {V : Type}.

(** On a monotonic clock the links stay in the order of their expiry, none
    further than [ttl] after the latest operation. *)
Lemma run_monotonic (maxsize : nat) (ttl : Z) (history : list (@Op V)) :
  (1 <= maxsize)%nat -> monotonic history ->
  StronglySorted by_expiry (cachetools.chain (run history (cachetools.empty maxsize ttl)))
  /\ forall latest,
       (forall op, op ∈ history -> op_time op <= latest) ->
       forall k e, (k, e) ∈ cachetools.chain (run history (cachetools.empty maxsize ttl)) ->
                   e <= latest + ttl.
Proof.
  intros Hmax. induction history as [|op earlier IH]; intros Hmono.
  { cbn. split; [constructor|]. intros latest _ k e Hin. inversion Hin. }
  unfold monotonic in Hmono. apply StronglySorted_cons in Hmono as [Hall Hmono].
  rewrite Forall_forall in Hall.
  destruct (IH Hmono) as [Hsorted Hbound]. clear IH.
  pose proof (run_invariant maxsize ttl earlier Hmax) as [Hwf _ Httl _ _].
  cbn [run]. set (c := run earlier (cachetools.empty maxsize ttl)) in *.
  assert (forall k e, (k, e) ∈ cachetools.chain c -> e <= op_time op + ttl) as Hnow
    by (apply Hbound; exact Hall).
  assert (forall latest, (forall o, o ∈ op :: earlier -> op_time o <= latest) ->
                         forall k e, (k, e) ∈ cachetools.chain c -> e <= latest + ttl) as Hlater.
  { intros latest Hl. apply Hbound. intros o Ho. apply Hl. right. exact Ho. }
  destruct op as [key now|key now|key value now]; cbn [step].
  - split; assumption.
  - destruct (getitem_spec c now key Hwf) as (_ & -> & _). split; assumption.
  - destruct (setitem_spec c now key value Hwf)
      as (r & c' & -> & _ & _ & _ & Hch & _ & _ & _ & Hs').
    cbn [snd]. rewrite Httl in Hch, Hs'. split; [apply Hs'; assumption|].
    intros latest Hl k e Hin. destruct (Hch k e Hin) as [[_ ->]|[_ Hin']].
    + assert (now <= latest) by (apply (Hl (SetItem key value now)); left). lia.
    + exact (Hlater latest Hl k e Hin').
Qed.

End MonotonicHistory.

(** An address that was cached stays cached while other addresses are
    looked up.  On the cache of [main.py], after [cache[address] = value]
    at time [t] on a monotonic clock, any 99 or fewer later operations
    before [t + 300] that do not set the address again leave it in the
    cache: until [t + 300], [in] finds it and [cache[address]] returns the
    value. *)
Theorem entry_survives_other_lookups
    (earlier later : list (@Op Info)) (address : string) (value : Info) (t now : Z) :
  monotonic (SetItem address value t :: earlier) ->
  (length later <= 99)%nat ->
  (forall op, op ∈ later -> op_time op < t + 300) ->
  (forall k v t', SetItem k v t' ∈ later -> k <> address) ->
  now < t + 300 ->
  cachetools.contains (run (later ++ SetItem address value t :: earlier) main.cache)
    now address = true
  /\ fst (cachetools.getitem (run (later ++ SetItem address value t :: earlier) main.cache)
            now address) = Return value.
Proof.
  intros Hmono Hlen Htimes Hsets Hnow. unfold main.cache.
  assert (holds (run (later ++ SetItem address value t :: earlier) (cachetools.empty 100 300))
            address value (t + 300) (length later)) as (Hc & Hd & _).
  { induction later as [|op later IH].
    - (* the set itself *)
      cbn [app run step length].
      apply StronglySorted_cons in Hmono as Hm. destruct Hm as [_ Hearlier].
      destruct (run_monotonic 100 300 earlier) as [Hsorted _]; [lia|exact Hearlier|].
      pose proof (run_invariant 100 300 earlier) as [Hwf _ Httl _ _]; [lia|].
      set (c := run earlier (cachetools.empty 100 300)) in *.
      destruct (setitem_spec c t address value Hwf)
        as (r & c' & E & _ & _ & _ & _ & _ & Hret & Htotal & _).
      specialize (Htotal Hsorted). subst r. destruct (Hret eq_refl) as [Ec Ed].
      rewrite Httl in Ec. rewrite E. cbn [snd]. split_and!; auto.
      unfold cachetools.setitem in E.
      destruct (cachetools.maxsize (cachetools.expire c t) <? 1)%nat; [discriminate|].
      destruct (match cachetools.assoc address (cachetools.data (cachetools.expire c t)) with
                | Some _ => _ | None => _ end) as [[[]|e] c2]; [|discriminate].
      injection E as <-. cbn. rewrite used_after_snoc_self. cbn. lia.
    - cbn [app run length].
      assert (holds (run (later ++ SetItem address value t :: earlier)
                       (cachetools.empty 100 300)) address value (t + 300) (length later))
        as Hprev.
      { apply IH.
        - cbn in Hlen. lia.
        - intros o Ho. apply Htimes. right. exact Ho.
        - intros k v t' Hin. apply (Hsets k v t'). right. exact Hin. }
      pose proof (run_invariant 100 300 (later ++ SetItem address value t :: earlier))
        as [Hwf Hmax _ _ _]; [lia|].
      set (c := run (later ++ SetItem address value t :: earlier)
                  (cachetools.empty 100 300)) in *.
      destruct op as [key' now'|key' now'|key' v' now']; cbn [step].
      + destruct Hprev as (? & ? & ?). split_and!; auto.
      + apply getitem_holds. exact Hprev.
      + apply setitem_holds; auto.
        * intros <-. apply (Hsets address v' now'); [left|reflexivity].
        * apply (Htimes (SetItem key' v' now')). left.
        * rewrite Hmax. cbn in Hlen. lia. }
  unfold cachetools.contains, cachetools.getitem. rewrite Hc, Hd.
  rewrite bool_decide_eq_true_2 by exact Hnow. auto.
Qed.

Lemma entry_survives_other_lookups_witness :
  cachetools.contains
    (run ([GetItem "TXYZopYRdj2D9XRtbG411XZZ3kM5VkAeBf" 250;
           SetItem "TXYZopYRdj2D9XRtbG411XZZ3kM5VkAeBf" scenario.nothing_staked 120;
           Contains scenario.address 60]
          ++ [SetItem scenario.address scenario.nothing_staked 0]) main.cache)
    299 scenario.address = true
  /\ fst (cachetools.getitem
            (run ([GetItem "TXYZopYRdj2D9XRtbG411XZZ3kM5VkAeBf" 250;
                   SetItem "TXYZopYRdj2D9XRtbG411XZZ3kM5VkAeBf" scenario.nothing_staked 120;
                   Contains scenario.address 60]
                  ++ [SetItem scenario.address scenario.nothing_staked 0]) main.cache)
            299 scenario.address) = Return scenario.nothing_staked.
Proof.
  apply (entry_survives_other_lookups []
           [GetItem "TXYZopYRdj2D9XRtbG411XZZ3kM5VkAeBf" 250;
            SetItem "TXYZopYRdj2D9XRtbG411XZZ3kM5VkAeBf" scenario.nothing_staked 120;
            Contains scenario.address 60]
           scenario.address scenario.nothing_staked 0 299).
  - repeat constructor.
  - cbn. lia.
  - intros op Hin. repeat (apply elem_of_cons in Hin as [->|Hin]; [cbn; lia|]).
    inversion Hin.
  - intros k v t' Hin.
    repeat (apply elem_of_cons in Hin as [Hin|Hin]; [try discriminate|]).
    + injection Hin as -> _ _. discriminate.
    + inversion Hin.
  - lia.
Defined.

(** * Further properties of [main.py]: the cache and the table together *)

(** The cache write is not undone when the table refuses the record.  On a
    miss whose fetch answered, a failing commit makes the handler raise
    [HTTPException(500)] with nothing inserted, and the answer of the fetch
    stays in the cache, expiring 300 s after the fetch. *)
Theorem cache_write_survives_a_store_failure
    (env : Env) (request : main.AddressRequest) (w w1 w2 : World) (info : Info) (e : Exc) :
  cache_ok w ->
  tron_service.validate_tron_address env (main.address request) w = (Return true, w1) ->
  cachetools.contains (cache_state w1) (clock w1) (main.address request) = false ->
  tron_service.get_address_info env (main.address request) w1 = (Return info, w2) ->
  db_fault env (tick w2) = Some e ->
  let '(r, w') := main.get_address_info_endpoint env request w in
  r = Raise (HTTPException 500
               ((if main.is_network_error e then "Network error: "
                 else "Internal server error: ") +:+ str e))
  /\ store w' = store w
  /\ cachetools.assoc (main.address request) (cachetools.data (cache_state w')) = Some info
  /\ cachetools.assoc (main.address request) (cachetools.chain (cache_state w'))
     = Some (clock w2 + 300).
Proof.
  intros (Hwf & Hmax & Httl & Hsorted & Hbound) V Hmiss G F.
  rewrite get_address_info_endpoint_finish, V.
  apply validate_tron_address_frame in V. destruct V as [Vc Vs _ _ _ _ _ _].
  rewrite lookup_info_eq, Hmiss, G.
  apply get_address_info_frame in G. destruct G as [Gc Gs _ _ _ _ _ _].
  assert (well_formed (cache_state w2)) as Hwf2 by (rewrite Gc, Vc; exact Hwf).
  destruct (setitem_spec (cache_state w2) (clock w2) (main.address request) info Hwf2)
    as (r & c' & E & _ & _ & _ & _ & _ & Hret & Htotal & _).
  rewrite E.
  assert (r = Return tt) as -> by (apply Htotal; rewrite Gc, Vc; exact Hsorted).
  destruct (Hret eq_refl) as [Ec Ed]. rewrite Gc, Vc, Httl in Ec.
  unfold finish. rewrite commit_eq. cbn [tick logged main.set_cache].
  rewrite (commit_fault_db env info _ e F).
  unfold main.except. destruct (main.is_network_error e); cbn;
    (split_and!; [reflexivity | congruence | exact Ed | exact Ec]).
Qed.

Lemma cache_write_survives_a_store_failure_witness :
  let '(r, w') :=
    main.get_address_info_endpoint scenario.commit_fails scenario.request scenario.start in
  r = Raise (HTTPException 500 "Internal server error: database is locked")
  /\ store w' = []
  /\ cachetools.assoc scenario.address (cachetools.data (cache_state w'))
     = Some scenario.nothing_staked
  /\ cachetools.assoc scenario.address (cachetools.chain (cache_state w')) = Some 304.
Proof.
  apply (cache_write_survives_a_store_failure scenario.commit_fails scenario.request
           scenario.start
           (snd (tron_service.validate_tron_address
                   scenario.commit_fails scenario.address scenario.start))
           (snd (tron_service.get_address_info
                   scenario.commit_fails scenario.address
                   (snd (tron_service.validate_tron_address
                           scenario.commit_fails scenario.address scenario.start))))
           scenario.nothing_staked
           (OtherException "OperationalError" "database is locked")).
  - split_and!; try reflexivity.
    + split; cbn; try lia; try apply NoDup_nil_2. reflexivity.
    + constructor.
    + intros k e Hin. inversion Hin.
  - vm_compute. reflexivity.
  - vm_compute. reflexivity.
  - vm_compute. reflexivity.
  - vm_compute. reflexivity.
Defined.

Section Answered.
Variable env : Env.

(** A lookup that answers has inserted the row of its answer, stamped by
    the database at the commit. *)
Lemma answered_lookup_row (request : main.AddressRequest) (w : World)
    (response : main.AddressInfo) :
  fst (main.get_address_info_endpoint env request w) = Return response ->
  exists (info : Info) (n : nat),
    (tick w <= n)%nat
    /\ store (snd (main.get_address_info_endpoint env request w))
       = store w ++ [inserted_row env (main.address request) info n (store w)]
    /\ response = {| main.info_address := main.address request;
                     main.info_bandwidth := bandwidth info;
                     main.info_energy := energy info;
                     main.info_balance := balance info |}.
Proof.
  rewrite get_address_info_endpoint_eq. cbv zeta.
  destruct (tron_service.validate_tron_address env (main.address request) w)
    as [v w1] eqn:V.
  apply validate_tron_address_frame in V. destruct V as [_ Vs _ _ _ _ _ Vt].
  destruct v as [[]|e0]; [|discriminate..].
  destruct (main.lookup_info env (main.address request) w1) as [o w2] eqn:L.
  apply lookup_info_store in L as [Ls Lt].
  destruct o as [info|e0].
  2: { destruct (except_eq (main.address request) e0 w2) as (d & m & -> & _).
       discriminate. }
  rewrite commit_eq.
  destruct (commit_fault env info (tick w2)) as [e0|] eqn:F1.
  { destruct (except_eq (main.address request) e0 (called env DbCommit w2))
      as (d & m & -> & _). discriminate. }
  rewrite refresh_eq. cbn [tick committed].
  destruct (db_fault env (S (tick w2))) as [e0|] eqn:F2.
  { destruct (except_eq (main.address request) e0
                (called env DbRefresh (committed env (main.address request) info w2)))
      as (d & m & -> & _). discriminate. }
  intros [= <-]. exists info, (tick w2). cbn. split_and!; [lia| |reflexivity].
  rewrite Ls, Vs. reflexivity.
Qed.

End Answered.

(** The two endpoints together.  When the database clock is past every
    stored timestamp, a lookup that answered is what the first page of the
    history starts with: the total has grown by one, and the first record
    is the one of this lookup, with the address, the bandwidth and the
    energy of its answer, and for balance the float nearest to the balance
    of the answer. *)
Theorem an_answered_lookup_heads_the_history
    (env : Env) (request : main.AddressRequest) (p : Z) (w : World)
    (response : main.AddressInfo) :
  1 <= p <= 100 ->
  fst (main.get_address_info_endpoint env request w) = Return response ->
  (forall r n, r ∈ store w -> (tick w <= n)%nat -> models.timestamp r < utcnow env n) ->
  db_fault env (tick (snd (main.get_address_info_endpoint env request w))) = None ->
  db_fault env (S (tick (snd (main.get_address_info_endpoint env request w)))) = None ->
  exists (listing : main.RecentRequests) (row : models.TronAddressInfo)
         (rest : list models.TronAddressInfo),
    fst (main.get_recent_requests env (Some 1) (Some p)
           (snd (main.get_address_info_endpoint env request w))) = Return listing
    /\ main.total listing = Z.of_nat (length (store w)) + 1
    /\ main.data listing = row :: rest
    /\ models.address row = main.address request
    /\ models.bandwidth row = main.info_bandwidth response
    /\ models.energy row = main.info_energy response
    /\ models.balance row = models.to_float (main.info_balance response).
Proof.
  intros Hp Hanswer Hpast F1 F2.
  destruct (answered_lookup_row env request w response Hanswer) as (info & n & Hn & Hs & ->).
  set (w' := snd (main.get_address_info_endpoint env request w)) in *.
  set (row := inserted_row env (main.address request) info n (store w)) in *.
  pose proof (get_recent_requests_ok env 1 p w' ltac:(lia) Hp ltac:(lia) F1 F2) as Hok.
  pose proof (order_by_timestamp_desc_sorted (store w')) as Hsorted.
  pose proof (order_by_timestamp_desc_perm (store w')) as Hperm.
  destruct (database.order_by_timestamp_desc (store w')) as [|h t] eqn:Eo.
  { apply Permutation_length in Hperm. rewrite Hs, length_app in Hperm. cbn in Hperm. lia. }
  assert (h = row) as ->.
  { assert (h ∈ store w ++ [row]) as Hh by (rewrite <- Hs, <- Hperm; left).
    assert (row ∈ h :: t) as Hr.
    { rewrite Hperm, Hs. apply elem_of_app. right. left. }
    apply elem_of_app in Hh as [Hold|Hnew].
    - apply elem_of_cons in Hr as [Heq|Hr]; [symmetry; exact Heq|].
      apply StronglySorted_cons in Hsorted as [Hall _].
      rewrite Forall_forall in Hall. specialize (Hall row Hr).
      unfold database.newer_first in Hall.
      specialize (Hpast h n Hold Hn). subst row. cbn in Hall. lia.
    - apply elem_of_cons in Hnew as [Hnew|Hnew]; [exact Hnew|inversion Hnew]. }
  eexists _, row, (take (Z.to_nat p - 1) t). split; [exact Hok|].
  cbn [main.total main.data]. split_and!.
  - rewrite Hs, length_app. cbn. lia.
  - replace (Z.to_nat ((1 - 1) * p)) with 0%nat by lia. cbn [drop].
    destruct (Z.to_nat p) as [|m] eqn:Em; [lia|]. cbn. rewrite Nat.sub_0_r. reflexivity.
  - reflexivity.
  - reflexivity.
  - reflexivity.
  - reflexivity.
Qed.

Lemma an_answered_lookup_heads_the_history_witness :
  exists (listing : main.RecentRequests) (row : models.TronAddressInfo)
         (rest : list models.TronAddressInfo),
    fst (main.get_recent_requests scenario.healthy (Some 1) (Some 10)
           (snd (main.get_address_info_endpoint scenario.healthy scenario.request
                   scenario.returning))) = Return listing
    /\ main.total listing = 16 + 1
    /\ main.data listing = row :: rest
    /\ models.address row = scenario.address
    /\ models.bandwidth row = 0
    /\ models.energy row = 0
    /\ models.balance row = models.to_float scenario.balance.
Proof.
  apply (an_answered_lookup_heads_the_history scenario.healthy scenario.request 10
           scenario.returning
           {| main.info_address := scenario.address; main.info_bandwidth := 0;
              main.info_energy := 0; main.info_balance := scenario.balance |}).
  - lia.
  - vm_compute. reflexivity.
  - intros r n Hin Hn. cbn [store scenario.returning] in Hin.
    apply list_elem_of_fmap in Hin as (i & -> & Hi).
    apply elem_of_seq in Hi. cbn in *. lia.
  - vm_compute. reflexivity.
  - vm_compute. reflexivity.
Defined.

(** * The cache across lookups *)

Section Served.











End Served.



